(** * RetroCam: the camera lifecycle and the capture pipeline of [src/App.tsx]

    The React component [App] is embedded as a labelled transition system.
    A [State] gathers the six [useState] cells, the three [useRef] cells and
    the part of the browser the component talks to (media streams and their
    tracks, the suspended invocations of the async function [startCamera],
    pending timers).  Every function of the component is a function from
    states to states that also returns the list of calls it makes across the
    component boundary (React setters of the camera state and of the
    captured image, [track.stop()], [getUserMedia], [link.click()]).

    Conventions.  A write to a [useState] cell is visible at once: React
    renders between two events, so a click runs the handler of the latest
    render.  [console.error] is left out.  The intrinsic size of the video
    is the browser's and changes on [loadedmetadata].  Time is not
    modelled: a timer is pending until the input [TimerFires] takes it, and
    its delay is kept as data.  Numbers of the pixel arithmetic are
    rationals; the rounding of a real result to a double is a parameter
    [fl] of the development. *)

From Stdlib Require Import ZArith QArith Qround Lqa Bool String Ascii List Lia.
From stdpp Require Import base list pretty.
Import ListNotations.
Local Open Scope string_scope.
Local Open Scope list_scope.
Local Open Scope Z_scope.

(** ** Data model *)

(** [type FilterMode = 'Natural' | '70s Film' | 'Sepia' | 'Polaroid'] *)
Inductive FilterMode : Type :=
| Natural
| Film70s
| Sepia
| Polaroid.

(** [status: 'idle' | 'requesting' | 'active' | 'error'] *)
Inductive Status : Type :=
| Idle
| Requesting
| Active
| Error.

(** [interface CameraState { status; error?: string }] *)
Record CameraState : Type := mkCameraState {
  status : Status;
  error : option string
}.

(** [const filterStyles: Record<FilterMode, string>] *)
Definition filterStyles (m : FilterMode) : string :=
  match m with
  | Natural => "none"
  | Film70s => "contrast(1.1) saturate(1.3) sepia(0.2) brightness(1.05)"
  | Sepia => "sepia(0.8) contrast(1.1) brightness(1.05)"
  | Polaroid => "contrast(1.2) saturate(0.9) brightness(1.1) sepia(0.1)"
  end.

(** [const modes: FilterMode[]] *)
Definition modes : list FilterMode := [Natural; Film70s; Sepia; Polaroid].

(** The [readyState] of a [MediaStreamTrack]. *)
Inductive TrackState : Type :=
| Live
| Ended.

(** A [MediaStream] is known to the component by its tracks only. *)
Abbreviation MediaStream := (list TrackState).

(** The [<video>] element: the stream bound to it and its intrinsic size. *)
Record Video : Type := mkVideo {
  srcObject : option nat;
  videoWidth : N;
  videoHeight : N
}.

(** The hidden [<canvas>] element. *)
Record Canvas : Type := mkCanvas {
  width : N;
  height : N
}.

(** What a [catch] clause can receive: an [Error] object with its message,
    or any other value. *)
Inductive Thrown : Type :=
| ErrorObject (message : string)
| NotAnError.

(** Where a suspended invocation of [startCamera] stands. *)
Inductive Stage : Type :=
| AwaitingStream    (* at [await navigator.mediaDevices.getUserMedia(...)] *)
| AwaitingMetadata  (* readiness promise pending, both listeners attached *)
| AwaitingPlay      (* [loadedmetadata] seen, [video.play()] pending *)
| Settled.          (* the async function has returned *)

(** The callbacks handed to [setTimeout]. *)
Inductive TimerAction : Type :=
| FlashOff                      (* [() => setShowFlash(false)] *)
| CapturingOff                  (* [() => setIsCapturing(false)] *)
| ReadinessTimeout (inv : nat). (* rejects the readiness promise of [inv] *)

Record Timer : Type := mkTimer {
  action : TimerAction;
  delay : Z
}.

(** Calls that leave the component. *)
Inductive Event : Type :=
| EvSetCameraState (cs : CameraState)
| EvTrackStop (stream track : nat)
| EvGetUserMedia (inv : nat)
| EvSetCapturedImage (dataUrl : string)
| EvLinkClick (href download : string).

(** What the browser hands to one run of [capturePhoto]. *)
Record CaptureEnv : Type := mkCaptureEnv {
  (* does [canvas.getContext('2d')] return a context? *)
  getContext : bool;
  (* [ctx.getImageData(0, 0, w, h).data] after [ctx.drawImage(video, 0, 0)]
     under the given [ctx.filter] *)
  getImageData : string -> N -> N -> list Z;
  (* the k-th value returned by [Math.random()] during the call *)
  random : nat -> Q;
  (* [canvas.toDataURL('image/jpeg', 0.9)] for the given pixel data *)
  toDataURL : N -> N -> list Z -> string
}.

Record State : Type := mkState {
  (* useState *)
  cameraState : CameraState;
  selectedMode : FilterMode;
  filmCount : Z;
  isCapturing : bool;
  capturedImage : option string;
  showFlash : bool;
  (* useRef *)
  videoRef : option Video;
  canvasRef : option Canvas;
  streamRef : option nat;
  (* browser *)
  streams : list MediaStream;
  invocations : list Stage;
  timers : list Timer
}.

(** State right after the first render and mount. *)
Definition initial : State :=
  {| cameraState := mkCameraState Idle None;
     selectedMode := Film70s;
     filmCount := 24;
     isCapturing := false;
     capturedImage := None;
     showFlash := false;
     videoRef := Some (mkVideo None 0 0);
     canvasRef := Some (mkCanvas 300 150);
     streamRef := None;
     streams := [];
     invocations := [];
     timers := [] |}.

(** Field updates. *)
Definition set_cameraState (v : CameraState) (st : State) : State :=
  mkState v (selectedMode st) (filmCount st) (isCapturing st)
    (capturedImage st) (showFlash st) (videoRef st) (canvasRef st)
    (streamRef st) (streams st) (invocations st) (timers st).

Definition set_selectedMode (v : FilterMode) (st : State) : State :=
  mkState (cameraState st) v (filmCount st) (isCapturing st)
    (capturedImage st) (showFlash st) (videoRef st) (canvasRef st)
    (streamRef st) (streams st) (invocations st) (timers st).

Definition set_filmCount (v : Z) (st : State) : State :=
  mkState (cameraState st) (selectedMode st) v (isCapturing st)
    (capturedImage st) (showFlash st) (videoRef st) (canvasRef st)
    (streamRef st) (streams st) (invocations st) (timers st).

Definition set_isCapturing (v : bool) (st : State) : State :=
  mkState (cameraState st) (selectedMode st) (filmCount st) v
    (capturedImage st) (showFlash st) (videoRef st) (canvasRef st)
    (streamRef st) (streams st) (invocations st) (timers st).

Definition set_capturedImage (v : option string) (st : State) : State :=
  mkState (cameraState st) (selectedMode st) (filmCount st) (isCapturing st)
    v (showFlash st) (videoRef st) (canvasRef st)
    (streamRef st) (streams st) (invocations st) (timers st).

Definition set_showFlash (v : bool) (st : State) : State :=
  mkState (cameraState st) (selectedMode st) (filmCount st) (isCapturing st)
    (capturedImage st) v (videoRef st) (canvasRef st)
    (streamRef st) (streams st) (invocations st) (timers st).

Definition set_videoRef (v : option Video) (st : State) : State :=
  mkState (cameraState st) (selectedMode st) (filmCount st) (isCapturing st)
    (capturedImage st) (showFlash st) v (canvasRef st)
    (streamRef st) (streams st) (invocations st) (timers st).

Definition set_canvasRef (v : option Canvas) (st : State) : State :=
  mkState (cameraState st) (selectedMode st) (filmCount st) (isCapturing st)
    (capturedImage st) (showFlash st) (videoRef st) v
    (streamRef st) (streams st) (invocations st) (timers st).

Definition set_streamRef (v : option nat) (st : State) : State :=
  mkState (cameraState st) (selectedMode st) (filmCount st) (isCapturing st)
    (capturedImage st) (showFlash st) (videoRef st) (canvasRef st)
    v (streams st) (invocations st) (timers st).

Definition set_streams (v : list MediaStream) (st : State) : State :=
  mkState (cameraState st) (selectedMode st) (filmCount st) (isCapturing st)
    (capturedImage st) (showFlash st) (videoRef st) (canvasRef st)
    (streamRef st) v (invocations st) (timers st).

Definition set_invocations (v : list Stage) (st : State) : State :=
  mkState (cameraState st) (selectedMode st) (filmCount st) (isCapturing st)
    (capturedImage st) (showFlash st) (videoRef st) (canvasRef st)
    (streamRef st) (streams st) v (timers st).

Definition set_timers (v : list Timer) (st : State) : State :=
  mkState (cameraState st) (selectedMode st) (filmCount st) (isCapturing st)
    (capturedImage st) (showFlash st) (videoRef st) (canvasRef st)
    (streamRef st) (streams st) (invocations st) v.

(** [setTimeout(f, ms)] *)
Definition setTimeout (a : TimerAction) (ms : Z) (st : State) : State :=
  set_timers (timers st ++ [mkTimer a ms]) st.

(** ** Strings *)

(** [s.includes(sub)] *)
Fixpoint includes (s sub : string) : bool :=
  String.prefix sub s ||
  match s with
  | EmptyString => false
  | String _ s' => includes s' sub
  end.

(** ** Film grain *)

(** The setter of a [Uint8ClampedArray] element (ECMAScript [ToUint8Clamp]):
    clamp to [0, 255], round to the nearest integer, ties to even. *)
Definition ToUint8Clamp (x : Q) : Z :=
  if Qle_bool x 0 then 0
  else if Qle_bool 255 x then 255
  else
    let f := Qfloor x in
    match Qcompare (inject_Z f + (1 # 2)) x with
    | Lt => f + 1
    | Gt => f
    | Eq => if Z.even f then f else f + 1
    end.

Section Grain.
(** [fl] rounds the exact result of an arithmetic operation to a double. *)
Variable fl : Q -> Q.

(** [const noise = (Math.random() - 0.5) * 20] *)
Definition noiseOf (r : Q) : Q := fl (fl (r - (1 # 2)) * 20).

(** [data[i] += noise] on a [Uint8ClampedArray] *)
Definition addNoise (noise : Q) (d : Z) : Z :=
  ToUint8Clamp (fl (inject_Z d + noise)).

(** The loop [for (let i = 0; i < data.length; i += 4)]; [k] counts the
    calls of [Math.random()] made so far.  A write past the end of a typed
    array is ignored. *)
Fixpoint addGrain (rand : nat -> Q) (k : nat) (data : list Z) : list Z :=
  match data with
  | [] => []
  | r :: t1 =>
      let noise := noiseOf (rand k) in
      addNoise noise r ::
      match t1 with
      | [] => []
      | g :: t2 =>
          addNoise noise g ::
          match t2 with
          | [] => []
          | b :: t3 =>
              addNoise noise b ::
              match t3 with
              | [] => []
              | a :: rest => a :: addGrain rand (S k) rest
              end
          end
      end
  end.
End Grain.

(** ** Commands *)

(** A command returns the new state and the calls it made, in order. *)
Definition Cmd : Type := State -> State * list Event.

Definition skip : Cmd := fun st => (st, []).

Definition andThen (c1 c2 : Cmd) : Cmd := fun st =>
  let (s1, e1) := c1 st in
  let (s2, e2) := c2 s1 in
  (s2, e1 ++ e2).

Notation "c1 >> c2" := (andThen c1 c2) (at level 62, right associativity).

(** A write that is seen by nobody outside the component. *)
Definition quiet (f : State -> State) : Cmd := fun st => (f st, []).

Definition setCameraState (cs : CameraState) : Cmd := fun st =>
  (set_cameraState cs st, [EvSetCameraState cs]).

Definition setCapturedImage (dataUrl : string) : Cmd := fun st =>
  (set_capturedImage (Some dataUrl) st, [EvSetCapturedImage dataUrl]).

(** ** Camera lifecycle *)

(** [stream.getTracks().forEach(track => track.stop())] *)
Definition stopTracks (h : nat) : Cmd := fun st =>
  match streams st !! h with
  | Some tracks =>
      (set_streams (<[h := (fun _ => Ended) <$> tracks]> (streams st)) st,
       map (EvTrackStop h) (seq 0 (length tracks)))
  | None => (st, [])
  end.

Definition bind_srcObject (o : option nat) (video : Video) : Video :=
  mkVideo o (videoWidth video) (videoHeight video).

(** [const stopCamera = useCallback(() => { ... }, [])] *)
Definition stopCamera : Cmd :=
  (fun st =>
     match streamRef st with
     | Some h => (stopTracks h >> quiet (set_streamRef None)) st
     | None => (st, [])
     end) >>
  (fun st =>
     match videoRef st with
     | Some video =>
         (set_videoRef (Some (bind_srcObject None video)) st, [])
     | None => (st, [])
     end).

(** [startCamera] up to its first suspension point: the status write, the
    release of the held stream, the request.  The new invocation is
    numbered by its position in [invocations]. *)
Definition startCamera : Cmd :=
  setCameraState (mkCameraState Requesting None) >>
  stopCamera >>
  (fun st =>
     (set_invocations (invocations st ++ [AwaitingStream]) st,
      [EvGetUserMedia (length (invocations st))])).

Definition settle (inv : nat) (st : State) : State :=
  set_invocations (<[inv := Settled]> (invocations st)) st.

Definition PermissionDenied : string :=
  "Camera access denied. Please allow camera permissions and try again.".

Definition DeviceNotFound : string := "No camera found on this device.".

Definition Other (message : string) : string :=
  String.append "Camera error: " message.

(** The [catch (err)] clause of [startCamera]. *)
Definition catchError (err : Thrown) : Cmd :=
  let errorMessage :=
    match err with
    | ErrorObject m => m
    | NotAnError => "Unknown error"
    end in
  if includes errorMessage "Permission denied"
     || includes errorMessage "NotAllowedError"
  then setCameraState (mkCameraState Error (Some PermissionDenied))
  else if includes errorMessage "NotFoundError"
          || includes errorMessage "DevicesNotFoundError"
  then setCameraState (mkCameraState Error (Some DeviceNotFound))
  else setCameraState (mkCameraState Error (Some (Other errorMessage))).

(** The promise of [getUserMedia] is fulfilled with a new stream: the
    invocation runs from [streamRef.current = stream] to the readiness
    promise, whose executor attaches the listeners and arms the timer. *)
Definition streamGranted (inv : nat) (tracks : MediaStream) : Cmd := fun st =>
  match invocations st !! inv with
  | Some AwaitingStream =>
      let h := length (streams st) in
      let st1 := set_streamRef (Some h) (set_streams (streams st ++ [tracks]) st) in
      match videoRef st1 with
      | Some video =>
          let st2 := set_videoRef (Some (bind_srcObject (Some h) video)) st1 in
          let st3 := setTimeout (ReadinessTimeout inv) 5000 st2 in
          (set_invocations (<[inv := AwaitingMetadata]> (invocations st3)) st3, [])
      | None => (settle inv st1, [])
      end
  | _ => (st, [])
  end.

(** The promise of [getUserMedia] is rejected. *)
Definition streamRefused (inv : nat) (err : Thrown) : Cmd := fun st =>
  match invocations st !! inv with
  | Some AwaitingStream => catchError err (settle inv st)
  | _ => (st, [])
  end.

(** The readiness promise of [inv] is rejected while still pending. *)
Definition readinessRejected (inv : nat) (err : Thrown) : Cmd := fun st =>
  match invocations st !! inv with
  | Some AwaitingMetadata | Some AwaitingPlay => catchError err (settle inv st)
  | _ => (st, [])
  end.

Definition listening (st : State) (inv : nat) : bool :=
  match invocations st !! inv with
  | Some AwaitingMetadata => true
  | _ => false
  end.

(** What [onLoadedMetadata] does to the invocation that attached it. *)
Definition played (s : Stage) : Stage :=
  match s with
  | AwaitingMetadata => AwaitingPlay
  | _ => s
  end.

(** The video fires [loadedmetadata]: every attached [onLoadedMetadata]
    detaches both listeners and calls [video.play()]. *)
Definition loadedMetadata (w h : N) : Cmd := fun st =>
  let st1 :=
    match videoRef st with
    | Some video => set_videoRef (Some (mkVideo (srcObject video) w h)) st
    | None => st
    end in
  (set_invocations
     (played <$> invocations st1) st1, []).

Fixpoint rejectEach (err : Thrown) (invs : list nat) : Cmd :=
  match invs with
  | [] => skip
  | inv :: rest => readinessRejected inv err >> rejectEach err rest
  end.

(** The video fires [error]: every attached [onError] rejects its promise. *)
Definition videoFailed : Cmd := fun st =>
  rejectEach (ErrorObject "Video failed to load")
    (List.filter (listening st) (seq 0 (length (invocations st)))) st.

(** [video.play()] of [inv] is fulfilled: [resolve()], then
    [setCameraState({ status: 'active' })]. *)
Definition playStarted (inv : nat) : Cmd := fun st =>
  match invocations st !! inv with
  | Some AwaitingPlay =>
      setCameraState (mkCameraState Active None) (settle inv st)
  | _ => (st, [])
  end.

(** [video.play()] of [inv] is rejected: [.catch(reject)]. *)
Definition playRefused (inv : nat) (err : Thrown) : Cmd := fun st =>
  match invocations st !! inv with
  | Some AwaitingPlay => catchError err (settle inv st)
  | _ => (st, [])
  end.

Definition runTimer (a : TimerAction) : Cmd :=
  match a with
  | FlashOff => quiet (set_showFlash false)
  | CapturingOff => quiet (set_isCapturing false)
  | ReadinessTimeout inv =>
      readinessRejected inv (ErrorObject "Camera initialization timed out")
  end.

(** The k-th pending timer expires. *)
Definition timerFires (k : nat) : Cmd := fun st =>
  match timers st !! k with
  | Some t => runTimer (action t) (set_timers (delete k (timers st)) st)
  | None => (st, [])
  end.

(** ** Capture, export, mode selection *)

Section Capture.
Variable fl : Q -> Q.

(** [const capturePhoto = useCallback(() => { ... }, [filmCount, selectedMode])].
    [filmCount_c] and [selectedMode_c] are the values the callback closed
    over at the render that created it; [setFilmCount(prev => prev - 1)]
    acts on the current cell.  [getImageData] throws [IndexSizeError] on
    an empty rectangle, which ends the call where it stands. *)
Definition capturePhoto (filmCount_c : Z) (selectedMode_c : FilterMode)
    (env : CaptureEnv) : Cmd := fun st =>
  match videoRef st, canvasRef st with
  | Some video, Some canvas =>
      if filmCount_c <=? 0 then (st, [])
      else
        let st1 :=
          setTimeout FlashOff 150
            (set_showFlash true (set_isCapturing true st)) in
        if negb (getContext env) then (st1, [])
        else
          let w := videoWidth video in
          let h := videoHeight video in
          let st2 := set_canvasRef (Some (mkCanvas w h)) st1 in
          if ((w =? 0) || (h =? 0))%N then (st2, [])
          else
            let data :=
              addGrain fl (random env) 0
                (getImageData env (filterStyles selectedMode_c) w h) in
            let dataUrl := toDataURL env w h data in
            (setCapturedImage dataUrl >>
             quiet (fun s => set_filmCount (filmCount s - 1) s) >>
             quiet (setTimeout CapturingOff 300)) st2
  | _, _ => (st, [])
  end.

(** [const downloadPhoto = useCallback(() => { ... }, [capturedImage])];
    [now] is [Date.now()].  The empty string is falsy. *)
Definition downloadPhoto (capturedImage_c : option string) (now : Z)
    : Cmd := fun st =>
  match capturedImage_c with
  | Some (String _ _ as href) =>
      (st, [EvLinkClick href
              (String.append "retrocam-" (String.append (pretty now) ".jpg"))])
  | _ => (st, [])
  end.

(** ** The component as a transition system *)

Inductive Input : Type :=
(* [onClick={startCamera}]: START CAMERA (shown when idle), TRY AGAIN
   (shown on error) and the switch button (always shown and enabled) *)
| PressStart
(* a call of [stopCamera] on its own: the effect clean-up *)
| CallStop
(* browser events *)
| StreamGranted (inv : nat) (ntracks : nat)
| StreamRefused (inv : nat) (err : Thrown)
| LoadedMetadata (w h : N)
| VideoFailed
| PlayStarted (inv : nat)
| PlayRefused (inv : nat) (err : Thrown)
| TimerFires (k : nat)
(* the capture button, [disabled] unless active with film left *)
| PressShutter (env : CaptureEnv)
(* the gallery button, [disabled] without a captured image *)
| PressGallery (now : Z)
(* [onClick={() => setSelectedMode(mode)}] *)
| PressMode (m : FilterMode).

Definition shutterDisabled (st : State) : bool :=
  match status (cameraState st) with
  | Active => filmCount st <=? 0
  | _ => true
  end.

(** A click runs the handler of the latest render, whose closure holds
    the current values of the cells. *)
Definition pressShutter (env : CaptureEnv) : Cmd := fun st =>
  if shutterDisabled st then (st, [])
  else capturePhoto (filmCount st) (selectedMode st) env st.

Definition pressGallery (now : Z) : Cmd := fun st =>
  match capturedImage st with
  | Some (String _ _) => downloadPhoto (capturedImage st) now st
  | _ => (st, [])
  end.

Definition step (st : State) (i : Input) : State * list Event :=
  match i with
  | PressStart => startCamera st
  | CallStop => stopCamera st
  | StreamGranted inv n => streamGranted inv (replicate n Live) st
  | StreamRefused inv err => streamRefused inv err st
  | LoadedMetadata w h => loadedMetadata w h st
  | VideoFailed => videoFailed st
  | PlayStarted inv => playStarted inv st
  | PlayRefused inv err => playRefused inv err st
  | TimerFires k => timerFires k st
  | PressShutter env => pressShutter env st
  | PressGallery now => pressGallery now st
  | PressMode m => quiet (set_selectedMode m) st
  end.

Fixpoint run (st : State) (inputs : list Input) : State * list Event :=
  match inputs with
  | [] => (st, [])
  | i :: rest =>
      let (s1, e1) := step st i in
      let (s2, e2) := run s1 rest in
      (s2, e1 ++ e2)
  end.

Inductive reachable : State -> Prop :=
| reachable_initial : reachable initial
| reachable_step st i : reachable st -> reachable (fst (step st i)).
End Capture.

(** ** Observations *)

Definition isLive (t : TrackState) : bool :=
  match t with
  | Live => true
  | Ended => false
  end.

(** A handle is live while one of its tracks is. *)
Definition liveStream (st : State) (h : nat) : bool :=
  match streams st !! h with
  | Some tracks => existsb isLive tracks
  | None => false
  end.

Definition liveHandles (st : State) : list nat :=
  List.filter (liveStream st) (seq 0 (length (streams st))).

(** The statuses written by a run, in order. *)
Fixpoint statusWrites (evs : list Event) : list Status :=
  match evs with
  | [] => []
  | EvSetCameraState cs :: rest => status cs :: statusWrites rest
  | _ :: rest => statusWrites rest
  end.

(** The artifacts produced by a run, in order. *)
Fixpoint artifacts (evs : list Event) : list string :=
  match evs with
  | [] => []
  | EvSetCapturedImage url :: rest => url :: artifacts rest
  | _ :: rest => artifacts rest
  end.

(** Exact arithmetic, the rounding that changes nothing. *)
Definition exact (q : Q) : Q := q.

(** What the development asks of the rounding: it is monotone and leaves
    the constants of the noise formula and its bounds alone (round to
    nearest on doubles does both). *)
Record Rounding (fl : Q -> Q) : Prop := mkRounding {
  fl_mono : forall x y : Q, (x <= y)%Q -> (fl x <= fl y)%Q;
  fl_half : (fl (1 # 2) == 1 # 2)%Q;
  fl_neg_half : (fl (- (1 # 2)) == - (1 # 2))%Q;
  fl_ten : (fl 10 == 10)%Q;
  fl_neg_ten : (fl (- (10)) == - (10))%Q
}.

(** The video and the canvas are mounted and the video has a frame. *)
Definition frameAvailable (st : State) : bool :=
  match videoRef st, canvasRef st with
  | Some video, Some _ =>
      negb ((videoWidth video =? 0) || (videoHeight video =? 0))%N
  | _, _ => false
  end.

(** [n] calls in a row. *)
Fixpoint times (n : nat) (c : Cmd) : Cmd :=
  match n with
  | O => skip
  | S n' => c >> times n' c
  end.

(** ** Predicates on commands and states *)

(** A command keeps the film when it leaves the budget and the held
    artifact alone and produces no artifact. *)
Definition keepsFilm (c : Cmd) : Prop :=
  forall st : State,
    filmCount (fst (c st)) = filmCount st /\
    capturedImage (fst (c st)) = capturedImage st /\
    artifacts (snd (c st)) = [].

(** A command keeps a view of the state. *)
Definition keeps {A : Type} (view : State -> A) (c : Cmd) : Prop :=
  forall st : State, view (fst (c st)) = view st.

(** The handle, the tracks and the video element. *)
Definition media (st : State) : option nat * list MediaStream * option Video :=
  (streamRef st, streams st, videoRef st).

(** The video shows nothing but the held stream. *)
Definition bound (st : State) : Prop :=
  match videoRef st with
  | Some video => srcObject video = None \/ srcObject video = streamRef st
  | None => True
  end.

Definition keepsMedia : Cmd -> Prop := keeps media.

(** ** One start at a time *)

Definition pending (s : Stage) : bool :=
  match s with
  | Settled => false
  | _ => true
  end.

(** No call of [startCamera] is under way. *)
Definition quiescent (st : State) : Prop :=
  forall (i : nat) (s : Stage), invocations st !! i = Some s -> s = Settled.

(** [startCamera] is not called while an earlier call is under way. *)
Definition inTurn (st : State) (i : Input) : Prop :=
  i = PressStart -> quiescent st.

Inductive reachableInTurn (fl : Q -> Q) : State -> Prop :=
| inTurn_initial : reachableInTurn fl initial
| inTurn_step st i :
    reachableInTurn fl st -> inTurn st i ->
    reachableInTurn fl (fst (step fl st i)).

(** What the lifecycle depends on. *)
Definition core (st : State)
    : option nat * list MediaStream * list Stage * Status :=
  (streamRef st, streams st, invocations st, status (cameraState st)).

(** The invariant of runs with one start at a time: a live handle is the
    held one; at most one call is under way; while it awaits its stream no
    handle is held; while it is under way the status is [Requesting]. *)
Record orderly (st : State) : Prop := mkOrderly {
  live_is_held :
    forall h : nat, liveStream st h = true -> streamRef st = Some h;
  one_pending :
    forall (i j : nat) (si sj : Stage),
      invocations st !! i = Some si -> invocations st !! j = Some sj ->
      pending si = true -> pending sj = true -> i = j;
  requested_unheld :
    forall i : nat,
      invocations st !! i = Some AwaitingStream -> streamRef st = None;
  pending_requesting :
    forall (i : nat) (s : Stage),
      invocations st !! i = Some s -> pending s = true ->
      status (cameraState st) = Requesting
}.

(** Starting from status [cur], no write of the list moves the status to
    [Active] or [Error] from anything but [Requesting]. *)
Fixpoint noSkip (cur : Status) (writes : list Status) : Prop :=
  match writes with
  | [] => True
  | w :: rest => (w = Requesting \/ cur = Requesting) /\ noSkip w rest
  end.

(** What a command may do in a run with one start at a time: keep the
    invariant, write the status without skipping [Requesting], and leave
    the status it last wrote. *)
Definition wellBehaved (c : Cmd) : Prop :=
  forall st : State,
    orderly st ->
    orderly (fst (c st)) /\
    noSkip (status (cameraState st)) (statusWrites (snd (c st))) /\
    status (cameraState (fst (c st))) =
      List.last (statusWrites (snd (c st))) (status (cameraState st)).

(** Every input of the run comes in turn. *)
Fixpoint allInTurn (fl : Q -> Q) (st : State) (inputs : list Input) : Prop :=
  match inputs with
  | [] => True
  | i :: rest => inTurn st i /\ allInTurn fl (fst (step fl st i)) rest
  end.

(** A stream that exists and is not the held one. *)
Definition orphan (st : State) (h : nat) : Prop :=
  (h < length (streams st))%nat /\ streamRef st <> Some h.

(** ** Sample inputs *)

Definition sampleEnv : CaptureEnv :=
  mkCaptureEnv true
    (fun _ _ _ => [250; 100; 0; 255])
    (fun _ => (19 # 20)%Q)
    (fun _ _ _ => "data:image/jpeg;base64,/9j/4AAQ").

(** A browser that refuses the 2d context. *)
Definition noContextEnv : CaptureEnv :=
  mkCaptureEnv false
    (fun _ _ _ => [250; 100; 0; 255])
    (fun _ => (19 # 20)%Q)
    (fun _ _ _ => "data:image/jpeg;base64,/9j/4AAQ").

(** The camera started once and playing a 1280x720 stream. *)
Definition playing : State :=
  fst (run exact initial
         [PressStart; StreamGranted 0 1; LoadedMetadata 1280 720;
          PlayStarted 0]).

Definition timedOut : Thrown := ErrorObject "Camera initialization timed out".

Definition notReadable : Thrown :=
  ErrorObject "NotReadableError: Could not start video source".

(** Two starts, the second while the first still awaits its stream (the
    switch button pressed twice); then both streams are granted. *)
Definition pressedTwice : list Input :=
  [PressStart; PressStart; StreamGranted 0 1; StreamGranted 1 1].

(** ** Further sample inputs *)

(** One shot taken while playing. *)
Definition afterShot : State :=
  fst (run exact playing [PressShutter sampleEnv]).

(** ** The error message *)

(** One of the three messages of the [catch] clause. *)
Definition classified (msg : string) : Prop :=
  msg = PermissionDenied \/ msg = DeviceNotFound \/ exists m, msg = Other m.

(** A camera state with a message of the [catch] clause under status
    [Error] and none under the others. *)
Definition messageShown (cs : CameraState) : Prop :=
  match status cs with
  | Error => exists msg, error cs = Some msg /\ classified msg
  | _ => error cs = None
  end.

Definition writesWell (c : Cmd) : Prop :=
  forall st : State,
    messageShown (cameraState st) -> messageShown (cameraState (fst (c st))).

(** [sub] occurs in [s]. *)
Definition contains (s sub : string) : Prop :=
  exists a b : string, s = String.append a (String.append sub b).

(** [err instanceof Error ? err.message : 'Unknown error'] *)
Definition messageOf (err : Thrown) : string :=
  match err with
  | ErrorObject m => m
  | NotAnError => "Unknown error"
  end.

(** ** Calls of [track.stop()] *)

(** The streams whose tracks a run stopped, one entry per call. *)
Fixpoint stopped (evs : list Event) : list nat :=
  match evs with
  | [] => []
  | EvTrackStop h _ :: rest => h :: stopped rest
  | _ :: rest => stopped rest
  end.

(** No input of the run is a start. *)
Definition noStart (inputs : list Input) : Prop :=
  Forall (fun i => i <> PressStart) inputs.

Definition noStops (c : Cmd) : Prop :=
  forall st : State, stopped (snd (c st)) = [].

(** Two streams granted to two overlapping starts. *)
Definition twoStreams : State := fst (run exact initial pressedTwice).

(** ** The stream behind a live viewfinder *)

(** No input of the run is a call of [stopCamera] on its own. *)
Definition noStop (inputs : list Input) : Prop :=
  Forall (fun i => i <> CallStop) inputs.

(** The invariant of runs with one start at a time and no clean-up: the
    video is mounted and shows the stream held; a call that has been
    granted its stream, and status [Active], come with a stream held; the
    stream held has all its tracks live. *)
Record attached (st : State) : Prop := mkAttached {
  video_mounted : exists video, videoRef st = Some video;
  shown_is_held :
    forall video, videoRef st = Some video -> srcObject video = streamRef st;
  active_held :
    status (cameraState st) = Active -> exists h, streamRef st = Some h;
  granted_held :
    forall (i : nat) (s : Stage),
      invocations st !! i = Some s ->
      s = AwaitingMetadata \/ s = AwaitingPlay ->
      exists h, streamRef st = Some h;
  held_is_live :
    forall h,
      streamRef st = Some h ->
      exists tracks,
        streams st !! h = Some tracks /\ Forall (fun t => t = Live) tracks
}.

Definition keepsAttached (c : Cmd) : Prop :=
  forall st : State, attached st -> attached (fst (c st)).

(** ** What is rendered *)

(** The filler of [padStart]: [fillString] over and over, cut to [n]
    characters; [rest] is what is left of the copy under way. *)
Fixpoint filler (n : nat) (fillString rest : string) : string :=
  match n with
  | O => EmptyString
  | S n' =>
      match rest with
      | String c rest' => String c (filler n' fillString rest')
      | EmptyString =>
          match fillString with
          | String c rest' => String c (filler n' fillString rest')
          | EmptyString => EmptyString
          end
      end
  end.

(** [s.padStart(maxLength, fillString)] *)
Definition padStart (maxLength : nat) (fillString s : string) : string :=
  String.append
    (filler (maxLength - String.length s) fillString fillString) s.

(** [selectedMode === mode] *)
Definition sameMode (a b : FilterMode) : bool :=
  match a, b with
  | Natural, Natural | Film70s, Film70s | Sepia, Sepia | Polaroid, Polaroid =>
      true
  | _, _ => false
  end.

(** A string used as a condition. *)
Definition truthy (o : option string) : bool :=
  match o with
  | Some (String _ _) => true
  | _ => false
  end.

(** The parts of the rendered tree that depend on the state. *)
Record View : Type := mkView {
  (* [{showFlash && <div ... />}] *)
  flashOverlay : bool;
  (* [{filmCount.toString().padStart(2, '0')}] *)
  filmCounter : string;
  (* [{cameraState.status === 'idle' && (...)}] *)
  startPanel : bool;
  (* [{cameraState.status === 'requesting' && (...)}] *)
  requestingPanel : bool;
  (* [{cameraState.status === 'error' && (...)}], with [{cameraState.error}] *)
  errorPanel : option (option string);
  (* the class [hidden] of the video *)
  videoHidden : bool;
  (* [style={{ filter: filterStyles[selectedMode] }}] *)
  videoFilter : string;
  (* [{cameraState.status === 'active' && (...)}] *)
  viewfinderOverlay : bool;
  (* [modes.map(mode => ...)], each with [selectedMode === mode] *)
  modeButtons : list (FilterMode * bool);
  (* [disabled={!capturedImage}] *)
  galleryDisabled : bool;
  (* [capturedImage ? <img src={capturedImage} /> : <svg />] *)
  galleryThumbnail : option string;
  (* [disabled={cameraState.status !== 'active' || filmCount <= 0}] *)
  captureDisabled : bool;
  (* [isCapturing ? 'scale-90' : ''] *)
  capturePressed : bool
}.

Definition isStatus (a b : Status) : bool :=
  match a, b with
  | Idle, Idle | Requesting, Requesting | Active, Active | Error, Error => true
  | _, _ => false
  end.

Definition render (st : State) : View :=
  let s := status (cameraState st) in
  {| flashOverlay := showFlash st;
     filmCounter := padStart 2 "0" (pretty (filmCount st));
     startPanel := isStatus s Idle;
     requestingPanel := isStatus s Requesting;
     errorPanel :=
       if isStatus s Error then Some (error (cameraState st)) else None;
     videoHidden := negb (isStatus s Active);
     videoFilter := filterStyles (selectedMode st);
     viewfinderOverlay := isStatus s Active;
     modeButtons := map (fun mode => (mode, sameMode (selectedMode st) mode)) modes;
     galleryDisabled := negb (truthy (capturedImage st));
     galleryThumbnail :=
       if truthy (capturedImage st) then capturedImage st else None;
     captureDisabled := negb (isStatus s Active) || (filmCount st <=? 0);
     capturePressed := isCapturing st |}.

(** The decimal digit [d]. *)
Definition digit (d : Z) : ascii := ascii_of_nat (48 + Z.to_nat d).

(** ** More on the rounding *)

(** The rounding leaves the integers near the range of a byte alone. *)
Definition exactOnBytes (fl : Q -> Q) : Prop :=
  forall z : Z, -10 <= z <= 265 -> (fl (inject_Z z) == inject_Z z)%Q.

(** ** Requests *)

(** The invocations whose [getUserMedia] request a run issued. *)
Fixpoint requests (evs : list Event) : list nat :=
  match evs with
  | [] => []
  | EvGetUserMedia inv :: rest => inv :: requests rest
  | _ :: rest => requests rest
  end.

(** The presses of a start control among the inputs. *)
Fixpoint starts (inputs : list Input) : nat :=
  match inputs with
  | [] => O
  | PressStart :: rest => S (starts rest)
  | _ :: rest => starts rest
  end.

Definition noRequests (c : Cmd) : Prop :=
  forall st : State,
    requests (snd (c st)) = [] /\
    length (invocations (fst (c st))) = length (invocations st).

(** * Properties *)

(** ** Film grain *)

Lemma ToUint8Clamp_range (x : Q) : 0 <= ToUint8Clamp x <= 255.
Proof.
  unfold ToUint8Clamp.
  destruct (Qle_bool x 0) eqn:Hlo; [lia|].
  destruct (Qle_bool 255 x) eqn:Hhi; [lia|].
  assert (Hpos : (0 < x)%Q).
  { apply Qnot_le_lt. intros H. apply Qle_bool_iff in H. congruence. }
  assert (Htop : (x < 255)%Q).
  { apply Qnot_le_lt. intros H. apply Qle_bool_iff in H. congruence. }
  assert (Hf0 : 0 <= Qfloor x).
  { change 0 with (Qfloor 0). apply Qfloor_resp_le. now apply Qlt_le_weak. }
  assert (Hf1 : Qfloor x < 255).
  { rewrite Zlt_Qlt. eapply Qle_lt_trans; [apply Qfloor_le | exact Htop]. }
  destruct (inject_Z (Qfloor x) + (1 # 2) ?= x)%Q;
    [destruct (Z.even (Qfloor x))|..]; lia.
Qed.

Section GrainFacts.
Variable fl : Q -> Q.
Hypothesis fl_rounding : Rounding fl.

Lemma noiseOf_range (r : Q) :
  (0 <= r)%Q -> (r < 1)%Q ->
  (- (10) <= noiseOf fl r)%Q /\ (noiseOf fl r <= 10)%Q.
Proof.
  intros H0 H1. destruct fl_rounding as [mono half nhalf ten nten].
  assert (Hlo : (- (1 # 2) <= fl (r - (1 # 2)))%Q).
  { apply Qle_trans with (fl (- (1 # 2))); [rewrite nhalf; apply Qle_refl|].
    apply mono. lra. }
  assert (Hhi : (fl (r - (1 # 2)) <= 1 # 2)%Q).
  { apply Qle_trans with (fl (1 # 2)); [|rewrite half; apply Qle_refl].
    apply mono. lra. }
  unfold noiseOf. split.
  - apply Qle_trans with (fl (- (10))); [rewrite nten; apply Qle_refl|].
    apply mono. lra.
  - apply Qle_trans with (fl 10); [|rewrite ten; apply Qle_refl].
    apply mono. lra.
Qed.
Lemma addGrain_length_fuel (rand : nat -> Q) (n : nat) :
  forall (data : list Z) (k : nat),
    (length data <= n)%nat ->
    length (addGrain fl rand k data) = length data.
Proof.
  induction n as [|n IH]; intros data k Hn.
  - destruct data; [reflexivity | simpl in Hn; lia].
  - destruct data as [|r [|g [|b [|a rest]]]]; try reflexivity.
    simpl. do 4 f_equal. apply IH. simpl in Hn. lia.
Qed.

Lemma addGrain_length (rand : nat -> Q) (k : nat) (data : list Z) :
  length (addGrain fl rand k data) = length data.
Proof. now apply addGrain_length_fuel with (n := length data). Qed.

(** The four entries of pixel [p] after the loop that started with [k]
    samples already drawn. *)
Lemma addGrain_pixel (rand : nat -> Q) :
  forall (p k : nat) (data : list Z) (r g b a : Z),
    data !! (4 * p)%nat = Some r ->
    data !! (4 * p + 1)%nat = Some g ->
    data !! (4 * p + 2)%nat = Some b ->
    data !! (4 * p + 3)%nat = Some a ->
    let noise := noiseOf fl (rand (k + p)%nat) in
    let out := addGrain fl rand k data in
    out !! (4 * p)%nat = Some (addNoise fl noise r) /\
    out !! (4 * p + 1)%nat = Some (addNoise fl noise g) /\
    out !! (4 * p + 2)%nat = Some (addNoise fl noise b) /\
    out !! (4 * p + 3)%nat = Some a.
Proof.
  induction p as [|p IH]; intros k data r g b a Hr Hg Hb Ha.
  - destruct data as [|r' [|g' [|b' [|a' rest]]]]; simpl in *;
      try discriminate.
    injection Hr as ->. injection Hg as ->.
    injection Hb as ->. injection Ha as ->.
    rewrite Nat.add_0_r. repeat split; reflexivity.
  - replace (4 * S p)%nat with (S (S (S (S (4 * p))))) in * by lia.
    destruct data as [|r' [|g' [|b' [|a' rest]]]]; simpl in *;
      try discriminate.
    replace (k + S p)%nat with (S k + p)%nat by lia.
    apply IH; assumption.
Qed.
End GrainFacts.

Lemma exact_rounding : Rounding exact.
Proof.
  constructor; unfold exact; intros; try reflexivity. assumption.
Defined.

(** C5. Film grain.  For every pixel [p] of the captured image the loop
    draws one sample [random p] in [0, 1), turns it into one noise value in
    [-10, 10], adds that same value to the red, green and blue entries, each
    sum being stored through the clamping setter of the array and so ending
    in [0, 255], and leaves the alpha entry as it was; the array keeps its
    length.  In exact arithmetic the noise is the sample scaled and
    shifted, [20 r - 10]. *)
Theorem grain_shared_sample (fl : Q -> Q) (env : CaptureEnv)
    (data : list Z) (p : nat) (r g b a : Z) :
  Rounding fl ->
  (forall k : nat, (0 <= random env k)%Q /\ (random env k < 1)%Q) ->
  data !! (4 * p)%nat = Some r ->
  data !! (4 * p + 1)%nat = Some g ->
  data !! (4 * p + 2)%nat = Some b ->
  data !! (4 * p + 3)%nat = Some a ->
  let noise := noiseOf fl (random env p) in
  let out := addGrain fl (random env) 0 data in
  ((- (10) <= noise)%Q /\ (noise <= 10)%Q) /\
  out !! (4 * p)%nat = Some (ToUint8Clamp (fl (inject_Z r + noise)%Q)) /\
  out !! (4 * p + 1)%nat = Some (ToUint8Clamp (fl (inject_Z g + noise)%Q)) /\
  out !! (4 * p + 2)%nat = Some (ToUint8Clamp (fl (inject_Z b + noise)%Q)) /\
  out !! (4 * p + 3)%nat = Some a /\
  (forall c : Z, 0 <= ToUint8Clamp (fl (inject_Z c + noise)%Q) <= 255) /\
  length out = length data /\
  (noiseOf exact (random env p) == 20 * random env p - 10)%Q.
Proof.
  intros HR Hrand Hr Hg Hb Ha noise out.
  destruct (addGrain_pixel fl (random env) p 0 data r g b a Hr Hg Hb Ha)
    as (Er & Eg & Eb & Ea).
  split; [apply (noiseOf_range fl HR); apply Hrand|].
  repeat split; try assumption.
  - apply ToUint8Clamp_range.
  - apply ToUint8Clamp_range.
  - apply addGrain_length.
  - unfold noiseOf, exact. ring.
Qed.

Lemma grain_shared_sample_witness :
  addGrain exact (random sampleEnv) 0 [250; 100; 0; 255] !! 0%nat
    = Some (ToUint8Clamp
              (exact (inject_Z 250 + noiseOf exact (random sampleEnv 0%nat))%Q)) /\
  addGrain exact (random sampleEnv) 0 [250; 100; 0; 255] = [255; 109; 9; 255].
Proof.
  split; [|reflexivity].
  refine (proj1 (proj2
    (grain_shared_sample exact sampleEnv [250; 100; 0; 255] 0 250 100 0 255
       exact_rounding _ eq_refl eq_refl eq_refl eq_refl))).
  intros k; split; [discriminate | reflexivity].
Defined.

(** ** Commands and their traces *)

(** Closes a conjunction of closed equations by evaluation. *)
Ltac evaluate :=
  repeat match goal with
         | |- _ /\ _ => split
         end;
  vm_compute; reflexivity.

Lemma andThen_eq (c1 c2 : Cmd) (st : State) :
  (c1 >> c2) st =
  (fst (c2 (fst (c1 st))), snd (c1 st) ++ snd (c2 (fst (c1 st)))).
Proof.
  unfold andThen. destruct (c1 st) as [s1 e1]. simpl.
  destruct (c2 s1) as [s2 e2]. reflexivity.
Qed.

Lemma artifacts_app (e1 e2 : list Event) :
  artifacts (e1 ++ e2) = artifacts e1 ++ artifacts e2.
Proof.
  induction e1 as [|e e1 IH]; [reflexivity|].
  destruct e; simpl; rewrite IH; reflexivity.
Qed.

Lemma statusWrites_app (e1 e2 : list Event) :
  statusWrites (e1 ++ e2) = statusWrites e1 ++ statusWrites e2.
Proof.
  induction e1 as [|e e1 IH]; [reflexivity|].
  destruct e; simpl; rewrite IH; reflexivity.
Qed.

Lemma artifacts_trackStops (h : nat) (l : list nat) :
  artifacts (map (EvTrackStop h) l) = [].
Proof. induction l; simpl; auto. Qed.

Lemma statusWrites_trackStops (h : nat) (l : list nat) :
  statusWrites (map (EvTrackStop h) l) = [].
Proof. induction l; simpl; auto. Qed.

(** ** The film cells *)

Lemma keepsFilm_andThen (c1 c2 : Cmd) :
  keepsFilm c1 -> keepsFilm c2 -> keepsFilm (c1 >> c2).
Proof.
  intros H1 H2 st. rewrite andThen_eq. simpl.
  destruct (H1 st) as (A1 & B1 & C1).
  destruct (H2 (fst (c1 st))) as (A2 & B2 & C2).
  rewrite artifacts_app, C1, C2. repeat split; congruence.
Qed.

Lemma keepsFilm_setCameraState (cs : CameraState) :
  keepsFilm (setCameraState cs).
Proof. intros st. repeat split. Qed.

Lemma keepsFilm_stopTracks (h : nat) : keepsFilm (stopTracks h).
Proof.
  intros st. unfold stopTracks. destruct (streams st !! h); simpl;
    repeat split. apply artifacts_trackStops.
Qed.

Lemma keepsFilm_stopCamera : keepsFilm stopCamera.
Proof.
  apply keepsFilm_andThen; intros st.
  - destruct (streamRef st) as [h|]; [|repeat split].
    apply (keepsFilm_andThen _ _ (keepsFilm_stopTracks h)).
    intros s. repeat split.
  - destruct (videoRef st); repeat split.
Qed.

Lemma keepsFilm_startCamera : keepsFilm startCamera.
Proof.
  apply keepsFilm_andThen; [apply keepsFilm_setCameraState|].
  apply keepsFilm_andThen; [apply keepsFilm_stopCamera|].
  intros st. repeat split.
Qed.

Lemma keepsFilm_catchError (err : Thrown) : keepsFilm (catchError err).
Proof.
  unfold catchError.
  repeat match goal with
         | |- context [if ?b then _ else _] => destruct b
         end; apply keepsFilm_setCameraState.
Qed.

Lemma keepsFilm_after (c : Cmd) (f : State -> State) :
  keepsFilm c ->
  (forall st, filmCount (f st) = filmCount st) ->
  (forall st, capturedImage (f st) = capturedImage st) ->
  keepsFilm (fun st => c (f st)).
Proof.
  intros Hc Hf Hi st. destruct (Hc (f st)) as (A & B & C).
  rewrite A, B, Hf, Hi. auto.
Qed.

Lemma keepsFilm_skip : keepsFilm skip.
Proof. intros st. repeat split. Qed.

Lemma keepsFilm_streamGranted (inv : nat) (tracks : MediaStream) :
  keepsFilm (streamGranted inv tracks).
Proof.
  intros st. unfold streamGranted.
  destruct (invocations st !! inv) as [[| | |]|]; simpl;
    try destruct (videoRef st); repeat split.
Qed.

Lemma keepsFilm_whenStage (inv : nat) (c : Cmd) (p : Stage -> bool) :
  keepsFilm c ->
  keepsFilm (fun st =>
    match invocations st !! inv with
    | Some s => if p s then c (settle inv st) else (st, [])
    | None => (st, [])
    end).
Proof.
  intros Hc st. destruct (invocations st !! inv) as [s|]; [|repeat split].
  destruct (p s); [|repeat split].
  apply (keepsFilm_after c (settle inv) Hc); reflexivity.
Qed.

Lemma keepsFilm_streamRefused (inv : nat) (err : Thrown) :
  keepsFilm (streamRefused inv err).
Proof.
  intros st.
  generalize (keepsFilm_whenStage inv (catchError err)
    (fun s => match s with AwaitingStream => true | _ => false end)
    (keepsFilm_catchError err) st).
  unfold streamRefused.
  destruct (invocations st !! inv) as [[| | |]|]; auto.
Qed.

Lemma keepsFilm_readinessRejected (inv : nat) (err : Thrown) :
  keepsFilm (readinessRejected inv err).
Proof.
  intros st.
  generalize (keepsFilm_whenStage inv (catchError err)
    (fun s => match s with
              | AwaitingMetadata | AwaitingPlay => true
              | _ => false
              end)
    (keepsFilm_catchError err) st).
  unfold readinessRejected.
  destruct (invocations st !! inv) as [[| | |]|]; auto.
Qed.

Lemma keepsFilm_playRefused (inv : nat) (err : Thrown) :
  keepsFilm (playRefused inv err).
Proof.
  intros st.
  generalize (keepsFilm_whenStage inv (catchError err)
    (fun s => match s with AwaitingPlay => true | _ => false end)
    (keepsFilm_catchError err) st).
  unfold playRefused.
  destruct (invocations st !! inv) as [[| | |]|]; auto.
Qed.

Lemma keepsFilm_playStarted (inv : nat) : keepsFilm (playStarted inv).
Proof.
  intros st.
  generalize (keepsFilm_whenStage inv
    (setCameraState (mkCameraState Active None))
    (fun s => match s with AwaitingPlay => true | _ => false end)
    (keepsFilm_setCameraState _) st).
  unfold playStarted.
  destruct (invocations st !! inv) as [[| | |]|]; auto.
Qed.

Lemma keepsFilm_rejectEach (err : Thrown) (invs : list nat) :
  keepsFilm (rejectEach err invs).
Proof.
  induction invs as [|inv invs IH]; [apply keepsFilm_skip|].
  apply keepsFilm_andThen; [apply keepsFilm_readinessRejected | exact IH].
Qed.

Lemma keepsFilm_videoFailed : keepsFilm videoFailed.
Proof. intros st. apply keepsFilm_rejectEach. Qed.

Lemma keepsFilm_loadedMetadata (w h : N) : keepsFilm (loadedMetadata w h).
Proof.
  intros st. unfold loadedMetadata. destruct (videoRef st); repeat split.
Qed.

Lemma keepsFilm_timerFires (k : nat) : keepsFilm (timerFires k).
Proof.
  intros st. unfold timerFires.
  destruct (timers st !! k) as [[a d]|]; [|repeat split]. simpl.
  destruct a as [| |inv]; [repeat split..|].
  apply (keepsFilm_after (readinessRejected inv _)
           (set_timers (delete k (timers st)))
           (keepsFilm_readinessRejected inv _)); reflexivity.
Qed.

(** ** Capture *)

Section CaptureFacts.
Variable fl : Q -> Q.

(** The guard of the first line of [capturePhoto]. *)
Lemma capturePhoto_guard (fc : Z) (mode : FilterMode) (env : CaptureEnv)
    (st : State) :
  videoRef st = None \/ canvasRef st = None \/ fc <= 0 ->
  capturePhoto fl fc mode env st = (st, []).
Proof.
  unfold capturePhoto. intros [H | [H | H]].
  - rewrite H. reflexivity.
  - rewrite H. destruct (videoRef st); reflexivity.
  - destruct (videoRef st), (canvasRef st); try reflexivity.
    apply Z.leb_le in H. rewrite H. reflexivity.
Qed.

(** A capture that goes through: the image drawn under the selected
    filter, with grain, encoded; one unit of film; both signals. *)
Lemma capturePhoto_success (fc : Z) (mode : FilterMode) (env : CaptureEnv)
    (st : State) (video : Video) (canvas : Canvas) :
  videoRef st = Some video ->
  canvasRef st = Some canvas ->
  0 < fc ->
  getContext env = true ->
  videoWidth video <> 0%N ->
  videoHeight video <> 0%N ->
  let w := videoWidth video in
  let h := videoHeight video in
  let dataUrl :=
    toDataURL env w h
      (addGrain fl (random env) 0
         (getImageData env (filterStyles mode) w h)) in
  capturePhoto fl fc mode env st =
  (setTimeout CapturingOff 300
     (set_filmCount (filmCount st - 1)
        (set_capturedImage (Some dataUrl)
           (set_canvasRef (Some (mkCanvas w h))
              (setTimeout FlashOff 150
                 (set_showFlash true (set_isCapturing true st)))))),
   [EvSetCapturedImage dataUrl]).
Proof.
  intros Hv Hc Hfc Hctx Hw Hh w h dataUrl. unfold capturePhoto.
  rewrite Hv, Hc.
  destruct (fc <=? 0) eqn:E; [apply Z.leb_le in E; lia|].
  rewrite Hctx. simpl negb. cbv iota.
  apply N.eqb_neq in Hw. apply N.eqb_neq in Hh. rewrite Hw, Hh.
  reflexivity.
Qed.

Lemma keepsFilm_unless_shutter (i : Input) :
  (forall env, i <> PressShutter env) -> keepsFilm (fun st => step fl st i).
Proof.
  intros Hi. destruct i; simpl.
  - apply keepsFilm_startCamera.
  - apply keepsFilm_stopCamera.
  - apply keepsFilm_streamGranted.
  - apply keepsFilm_streamRefused.
  - apply keepsFilm_loadedMetadata.
  - apply keepsFilm_videoFailed.
  - apply keepsFilm_playStarted.
  - apply keepsFilm_playRefused.
  - apply keepsFilm_timerFires.
  - exfalso. eapply Hi. reflexivity.
  - intros st. unfold pressGallery, downloadPhoto.
    destruct (capturedImage st) as [[|c s]|] eqn:E; simpl; rewrite ?E;
      repeat split.
  - intros st. repeat split.
Qed.

Lemma pressShutter_disabled (env : CaptureEnv) (st : State) :
  shutterDisabled st = true -> pressShutter fl env st = (st, []).
Proof. intros H. unfold pressShutter. rewrite H. reflexivity. Qed.

(** With the film used up nothing brings it back. *)
Lemma step_film_empty (st : State) (i : Input) :
  filmCount st = 0 -> filmCount (fst (step fl st i)) = 0.
Proof.
  intros H0.
  assert (Hsh : forall env, filmCount (fst (pressShutter fl env st)) = 0).
  { intros env. rewrite pressShutter_disabled; [exact H0|].
    unfold shutterDisabled. rewrite H0.
    destruct (status (cameraState st)); reflexivity. }
  destruct i; try apply Hsh;
    match goal with
    | |- filmCount (fst (step fl st ?i)) = 0 =>
        destruct (keepsFilm_unless_shutter i) with (st := st) as (A & _);
        [discriminate | rewrite A; exact H0]
    end.
Qed.

Lemma run_film_empty (inputs : list Input) :
  forall st : State,
    filmCount st = 0 -> filmCount (fst (run fl st inputs)) = 0.
Proof.
  induction inputs as [|i rest IH]; intros st H0; [exact H0|].
  simpl. pose proof (step_film_empty st i H0) as H1.
  destruct (step fl st i) as [s1 e1]. simpl in H1.
  specialize (IH s1 H1). destruct (run fl s1 rest). exact IH.
Qed.

(** The film never grows and, started non-negative, never goes below 0. *)
Lemma step_film_monotone (st : State) (i : Input) :
  filmCount (fst (step fl st i)) <= filmCount st /\
  (0 <= filmCount st -> 0 <= filmCount (fst (step fl st i))).
Proof.
  destruct i;
    try match goal with
        | |- context [step fl st ?i] =>
            let A := fresh "A" in
            assert (A : filmCount (fst (step fl st i)) = filmCount st)
              by (apply (keepsFilm_unless_shutter i); discriminate);
            rewrite A; lia
        end.
  simpl. unfold pressShutter, shutterDisabled.
  destruct (status (cameraState st)); simpl; try lia.
  destruct (filmCount st <=? 0) eqn:E; simpl; [lia|].
  apply Z.leb_gt in E. unfold capturePhoto.
  destruct (videoRef st) as [video|]; simpl; [|lia].
  destruct (canvasRef st) as [canvas|]; simpl; [|lia].
  destruct (filmCount st <=? 0); simpl; [lia|].
  destruct (getContext env); simpl; [|lia].
  destruct ((videoWidth video =? 0)%N || (videoHeight video =? 0)%N);
    simpl; lia.
Qed.

(** [k] shots on a roll of [n >= k], one after the other. *)
Lemma shots (envs : list CaptureEnv) :
  forall (st : State) (n : nat),
    status (cameraState st) = Active ->
    frameAvailable st = true ->
    filmCount st = Z.of_nat n ->
    (length envs <= n)%nat ->
    Forall (fun env => getContext env = true) envs ->
    let r := run fl st (map PressShutter envs) in
    filmCount (fst r) = Z.of_nat n - Z.of_nat (length envs) /\
    length (artifacts (snd r)) = length envs /\
    status (cameraState (fst r)) = Active /\
    frameAvailable (fst r) = true.
Proof.
  induction envs as [|env envs IH]; intros st n Hact Hfr Hn Hlen Hctx.
  - simpl. repeat split; try assumption. lia.
  - simpl in Hlen. destruct n as [|n]; [lia|].
    inversion Hctx as [|? ? Henv Hrest]; subst.
    assert (Hframe := Hfr). unfold frameAvailable in Hframe.
    destruct (videoRef st) as [video|] eqn:Hv; [|discriminate].
    destruct (canvasRef st) as [canvas|] eqn:Hc; [|discriminate].
    apply negb_true_iff, orb_false_iff in Hframe.
    destruct Hframe as [Hw Hh].
    apply N.eqb_neq in Hw. apply N.eqb_neq in Hh.
    simpl map. cbn [run step]. unfold pressShutter, shutterDisabled.
    rewrite Hact.
    destruct (filmCount st <=? 0) eqn:E; [apply Z.leb_le in E; lia|].
    rewrite (capturePhoto_success (filmCount st) (selectedMode st) env st
               video canvas Hv Hc ltac:(lia) Henv Hw Hh).
    match goal with
    | |- context [run fl ?s (map PressShutter envs)] =>
        specialize (IH s n);
        destruct (run fl s (map PressShutter envs)) as [s2 e2] eqn:Er
    end.
    simpl in IH.
    destruct IH as (A & B & C & D); try assumption.
    + unfold frameAvailable. simpl. rewrite Hv.
      apply negb_true_iff, orb_false_iff.
      split; apply N.eqb_neq; assumption.
    + lia.
    + lia.
    + simpl. repeat split; try assumption; lia.
Qed.
End CaptureFacts.

(** C3. Film budget.  From a budget of 24, status [Active] and a frame to
    draw, 24 presses of the shutter in a row each produce one artifact and
    take exactly one unit: after [k <= 24] presses the budget is [24 - k]
    and [k] artifacts were produced.  After the 24th the budget is 0; a 25th
    press, and the callback itself, change nothing and produce nothing; and
    whatever happens next the budget stays 0. *)
Theorem film_roll_of_24 (fl : Q -> Q) (st : State) (envs : list CaptureEnv) :
  filmCount st = 24 ->
  status (cameraState st) = Active ->
  frameAvailable st = true ->
  length envs = 24%nat ->
  Forall (fun env => getContext env = true) envs ->
  (forall k : nat, (k <= 24)%nat ->
     let r := run fl st (map PressShutter (take k envs)) in
     filmCount (fst r) = 24 - Z.of_nat k /\
     length (artifacts (snd r)) = k) /\
  (let st24 := fst (run fl st (map PressShutter envs)) in
   filmCount st24 = 0 /\
   (forall env, step fl st24 (PressShutter env) = (st24, [])) /\
   (forall env,
      capturePhoto fl (filmCount st24) (selectedMode st24) env st24
      = (st24, [])) /\
   (forall inputs, filmCount (fst (run fl st24 inputs)) = 0)).
Proof.
  intros Hn Hact Hfr Hlen Hctx. split.
  - intros k Hk r.
    assert (Hlk : length (take k envs) = k) by (rewrite length_take; lia).
    destruct (shots fl (take k envs) st 24 Hact Hfr Hn) as (A & B & _).
    + lia.
    + apply Forall_take. exact Hctx.
    + fold r in A, B. rewrite Hlk in A, B. split; [|exact B].
      rewrite A. lia.
  - destruct (shots fl envs st 24 Hact Hfr Hn) as (A & _ & C & _);
      [lia | exact Hctx |].
    rewrite Hlen in A. cbv zeta.
    set (st24 := fst (run fl st (map PressShutter envs))) in *.
    assert (H0 : filmCount st24 = 0) by lia.
    split; [exact H0|]. split; [|split].
    + intros env. simpl. apply pressShutter_disabled.
      unfold shutterDisabled. rewrite C, H0. reflexivity.
    + intros env. apply capturePhoto_guard. right. right. lia.
    + intros inputs. apply run_film_empty. exact H0.
Qed.

Lemma film_roll_of_24_witness :
  filmCount
    (fst (run exact playing (map PressShutter (replicate 24 sampleEnv)))) = 0.
Proof.
  refine (proj1 (proj2
    (film_roll_of_24 exact playing (replicate 24 sampleEnv)
       eq_refl eq_refl eq_refl eq_refl _))).
  repeat constructor.
Defined.

(** The second guard of [capturePhoto] comes after the signals. *)
Lemma capturePhoto_without_context (fl : Q -> Q) (fc : Z) (mode : FilterMode)
    (env : CaptureEnv) (st : State) (video : Video) (canvas : Canvas) :
  videoRef st = Some video ->
  canvasRef st = Some canvas ->
  0 < fc ->
  getContext env = false ->
  capturePhoto fl fc mode env st =
  (setTimeout FlashOff 150 (set_showFlash true (set_isCapturing true st)), []).
Proof.
  intros Hv Hc Hfc Hctx. unfold capturePhoto. rewrite Hv, Hc, Hctx.
  destruct (fc <=? 0) eqn:E; [apply Z.leb_le in E; lia | reflexivity].
Qed.

(** With the video mounted but no frame to draw, [getImageData] throws
    on the empty rectangle after the signals were raised. *)
Lemma capturePhoto_empty_frame (fl : Q -> Q) (fc : Z) (mode : FilterMode)
    (env : CaptureEnv) (st : State) (video : Video) (canvas : Canvas) :
  videoRef st = Some video ->
  canvasRef st = Some canvas ->
  0 < fc ->
  getContext env = true ->
  videoWidth video = 0%N \/ videoHeight video = 0%N ->
  capturePhoto fl fc mode env st =
  (set_canvasRef (Some (mkCanvas (videoWidth video) (videoHeight video)))
     (setTimeout FlashOff 150 (set_showFlash true (set_isCapturing true st))),
   []).
Proof.
  intros Hv Hc Hfc Hctx Hz. unfold capturePhoto. rewrite Hv, Hc, Hctx.
  destruct (fc <=? 0) eqn:E; [apply Z.leb_le in E; lia|]. simpl negb.
  cbv iota.
  assert (Hb : ((videoWidth video =? 0) || (videoHeight video =? 0))%N = true).
  { apply orb_true_iff. destruct Hz as [Hz | Hz]; [left | right];
      apply N.eqb_eq; exact Hz. }
  rewrite Hb. reflexivity.
Qed.

(** C4. Capture with a precondition unmet.  With the video and the canvas
    mounted, film left and no 2d context, the shutter raises the capturing
    and the flash signals and arms the 150 ms timer before it returns: no
    artifact and no budget change, but not a no-op.  The 300 ms timer is
    never armed, so once the pending timers have fired the capturing signal
    is still up. *)
Theorem capture_without_context_signals :
  let r := step exact playing (PressShutter noContextEnv) in
  let later := run exact (fst r) [TimerFires 1; TimerFires 0] in
  capturePhoto exact (filmCount playing) (selectedMode playing)
    noContextEnv playing = r /\
  fst r <> playing /\
  isCapturing playing = false /\ isCapturing (fst r) = true /\
  showFlash playing = false /\ showFlash (fst r) = true /\
  timers (fst r) = timers playing ++ [mkTimer FlashOff 150] /\
  filmCount (fst r) = filmCount playing /\
  capturedImage (fst r) = capturedImage playing /\
  snd r = [] /\
  timers (fst later) = [] /\ showFlash (fst later) = false /\
  isCapturing (fst later) = true.
Proof.
  cbv zeta. split; [reflexivity|]. split; [discriminate|]. evaluate.
Qed.

(** C8. Capture needs [Active].  In a state whose status is not [Active]
    no input at all changes the budget or the held artifact or produces an
    artifact, and a press of the shutter changes nothing whatsoever. *)
Theorem capture_only_when_active (fl : Q -> Q) (st : State) (i : Input) :
  status (cameraState st) <> Active ->
  let r := step fl st i in
  filmCount (fst r) = filmCount st /\
  capturedImage (fst r) = capturedImage st /\
  artifacts (snd r) = [] /\
  (forall env, i = PressShutter env -> r = (st, [])).
Proof.
  intros Hst r.
  assert (Hsh : forall env, step fl st (PressShutter env) = (st, [])).
  { intros env. simpl. apply pressShutter_disabled. unfold shutterDisabled.
    destruct (status (cameraState st)); congruence. }
  assert (Hr : filmCount (fst r) = filmCount st /\
               capturedImage (fst r) = capturedImage st /\
               artifacts (snd r) = []).
  { subst r. destruct i;
      try (apply (keepsFilm_unless_shutter fl); discriminate).
    rewrite Hsh. repeat split. }
  destruct Hr as (A & B & C). repeat split; try assumption.
  intros env ->. apply Hsh.
Qed.

Lemma capture_only_when_active_witness :
  step exact initial (PressShutter sampleEnv) = (initial, []).
Proof.
  refine (proj2 (proj2 (proj2
    (capture_only_when_active exact initial (PressShutter sampleEnv) _)))
    sampleEnv eq_refl).
  discriminate.
Defined.

(** C9. Export without an artifact.  With no captured image held, the
    gallery button and [downloadPhoto] itself build no file name, click no
    link and change no state. *)
Theorem export_without_artifact (fl : Q -> Q) (st : State) (now : Z) :
  capturedImage st = None ->
  step fl st (PressGallery now) = (st, []) /\
  downloadPhoto (capturedImage st) now st = (st, []).
Proof.
  intros H. simpl. unfold pressGallery. rewrite H. split; reflexivity.
Qed.

Lemma export_without_artifact_witness :
  step exact initial (PressGallery 1700000000000) = (initial, []).
Proof.
  exact (proj1 (export_without_artifact exact initial 1700000000000 eq_refl)).
Defined.

(** C10. Mode selection.  Selecting a mode writes the selected mode and
    nothing else: the camera status and its error message, the budget, the
    held artifact, the handle and the tracks of every stream are as before,
    and so is the rest of the state; nothing is called. *)
Theorem select_mode_frame (fl : Q -> Q) (st : State) (m : FilterMode) :
  let r := step fl st (PressMode m) in
  In m modes /\
  selectedMode (fst r) = m /\
  cameraState (fst r) = cameraState st /\
  filmCount (fst r) = filmCount st /\
  capturedImage (fst r) = capturedImage st /\
  streamRef (fst r) = streamRef st /\
  streams (fst r) = streams st /\
  fst r = set_selectedMode m st /\
  snd r = [].
Proof.
  simpl. split; [|repeat split].
  destruct m; simpl; auto.
Qed.

(** ** Cells out of reach of the settling of an invocation

    The continuation of [startCamera] after its last suspension writes the
    camera state and nothing else; the bookkeeping of the model touches the
    invocations and the timers.  A view of the state that ignores these
    cells is kept by all of them. *)
Section Frame.
Context {A : Type} (view : State -> A).
Hypothesis view_cameraState :
  forall v st, view (set_cameraState v st) = view st.
Hypothesis view_invocations :
  forall v st, view (set_invocations v st) = view st.
Hypothesis view_timers :
  forall v st, view (set_timers v st) = view st.

Lemma keeps_andThen (c1 c2 : Cmd) :
  keeps view c1 -> keeps view c2 -> keeps view (c1 >> c2).
Proof.
  intros H1 H2 st. rewrite andThen_eq. simpl. rewrite H2. apply H1.
Qed.

Lemma keeps_setCameraState (cs : CameraState) : keeps view (setCameraState cs).
Proof. intros st. apply view_cameraState. Qed.

Lemma keeps_catchError (err : Thrown) : keeps view (catchError err).
Proof.
  unfold catchError.
  repeat match goal with
         | |- context [if ?b then _ else _] => destruct b
         end; apply keeps_setCameraState.
Qed.

Lemma view_settle (inv : nat) (st : State) : view (settle inv st) = view st.
Proof. apply view_invocations. Qed.

Lemma keeps_streamRefused (inv : nat) (err : Thrown) :
  keeps view (streamRefused inv err).
Proof.
  intros st. unfold streamRefused.
  destruct (invocations st !! inv) as [[| | |]|]; try reflexivity.
  rewrite keeps_catchError. apply view_settle.
Qed.

Lemma keeps_readinessRejected (inv : nat) (err : Thrown) :
  keeps view (readinessRejected inv err).
Proof.
  intros st. unfold readinessRejected.
  destruct (invocations st !! inv) as [[| | |]|]; try reflexivity;
    rewrite keeps_catchError; apply view_settle.
Qed.

Lemma keeps_playRefused (inv : nat) (err : Thrown) :
  keeps view (playRefused inv err).
Proof.
  intros st. unfold playRefused.
  destruct (invocations st !! inv) as [[| | |]|]; try reflexivity.
  rewrite keeps_catchError. apply view_settle.
Qed.

Lemma keeps_playStarted (inv : nat) : keeps view (playStarted inv).
Proof.
  intros st. unfold playStarted.
  destruct (invocations st !! inv) as [[| | |]|]; try reflexivity.
  rewrite keeps_setCameraState. apply view_settle.
Qed.

Lemma keeps_rejectEach (err : Thrown) (invs : list nat) :
  keeps view (rejectEach err invs).
Proof.
  induction invs as [|inv invs IH]; [intros st; reflexivity|].
  apply keeps_andThen; [apply keeps_readinessRejected | exact IH].
Qed.

Lemma keeps_videoFailed : keeps view videoFailed.
Proof. intros st. apply keeps_rejectEach. Qed.
End Frame.

(** ** Release *)

Lemma stopCamera_eq (st : State) :
  stopCamera st =
  let st1 :=
    match streamRef st with
    | Some h =>
        match streams st !! h with
        | Some tracks =>
            set_streamRef None
              (set_streams (<[h := (fun _ => Ended) <$> tracks]> (streams st))
                 st)
        | None => set_streamRef None st
        end
    | None => st
    end in
  (match videoRef st with
   | Some video => set_videoRef (Some (bind_srcObject None video)) st1
   | None => st1
   end,
   match streamRef st with
   | Some h =>
       match streams st !! h with
       | Some tracks => map (EvTrackStop h) (seq 0 (length tracks))
       | None => []
       end
   | None => []
   end).
Proof.
  unfold stopCamera. rewrite andThen_eq.
  destruct (streamRef st) as [h|] eqn:Hs.
  - rewrite andThen_eq. unfold stopTracks, quiet.
    destruct (streams st !! h) as [tracks|]; simpl;
      destruct (videoRef st); simpl; rewrite ?app_nil_r; reflexivity.
  - simpl. destruct (videoRef st); reflexivity.
Qed.

Lemma stopCamera_releases (st : State) :
  streamRef (fst (stopCamera st)) = None /\
  bound (fst (stopCamera st)).
Proof.
  rewrite stopCamera_eq. unfold bound. cbv zeta.
  destruct (streamRef st) as [h|] eqn:Hs;
    [destruct (streams st !! h) eqn:Hh|];
    destruct (videoRef st) as [video|] eqn:Hv; simpl;
    rewrite ?Hs, ?Hv; auto.
Qed.

Lemma stopCamera_status (st : State) :
  cameraState (fst (stopCamera st)) = cameraState st /\
  statusWrites (snd (stopCamera st)) = [].
Proof.
  rewrite stopCamera_eq. cbv zeta. split.
  - destruct (streamRef st) as [h|]; [destruct (streams st !! h)|];
      destruct (videoRef st); reflexivity.
  - simpl. destruct (streamRef st) as [h|]; [destruct (streams st !! h)|];
      try reflexivity. apply statusWrites_trackStops.
Qed.

(** Without a held handle and with nothing shown, [stopCamera] has nothing
    to do. *)
Lemma stopCamera_idle (st : State) :
  streamRef st = None -> bound st -> stopCamera st = (st, []).
Proof.
  intros Hs Hb. rewrite stopCamera_eq. unfold bound in Hb.
  rewrite Hs in *. cbv zeta.
  destruct (videoRef st) as [[src w h]|] eqn:Hv; [|reflexivity].
  simpl in Hb. assert (src = None) by (destruct Hb; assumption). subst src.
  unfold bind_srcObject. simpl. f_equal.
  destruct st; simpl in *. subst. reflexivity.
Qed.

Lemma stopCamera_idempotent (st : State) :
  stopCamera (fst (stopCamera st)) = (fst (stopCamera st), []).
Proof.
  destruct (stopCamera_releases st) as [Hs Hb].
  apply stopCamera_idle; assumption.
Qed.

Lemma times_idle (n : nat) (st : State) :
  stopCamera st = (st, []) -> times n stopCamera st = (st, []).
Proof.
  intros H. induction n as [|n IH]; [reflexivity|].
  simpl. rewrite andThen_eq, H. simpl. rewrite IH. reflexivity.
Qed.

Lemma times_stopCamera (n : nat) (st : State) :
  times (S n) stopCamera st = stopCamera st.
Proof.
  simpl. rewrite andThen_eq.
  rewrite (times_idle n _ (stopCamera_idempotent st)). simpl.
  rewrite app_nil_r. destruct (stopCamera st); reflexivity.
Qed.

Lemma bound_media (st st' : State) :
  media st' = media st -> bound st -> bound st'.
Proof.
  unfold media, bound. intros E. injection E as E1 E2 E3.
  rewrite E1, E3. auto.
Qed.

Lemma keepsMedia_timerFires (k : nat) : keepsMedia (timerFires k).
Proof.
  intros st. unfold timerFires.
  destruct (timers st !! k) as [[a d]|]; [|reflexivity]. simpl.
  destruct a as [| |inv]; try reflexivity. simpl.
  rewrite (keeps_readinessRejected media); reflexivity.
Qed.

Lemma keepsMedia_capturePhoto (fl : Q -> Q) (fc : Z) (mode : FilterMode)
    (env : CaptureEnv) : keepsMedia (capturePhoto fl fc mode env).
Proof.
  intros st. unfold capturePhoto.
  destruct (videoRef st) as [video|] eqn:Hv; [|reflexivity].
  destruct (canvasRef st); [|reflexivity].
  destruct (fc <=? 0); [reflexivity|].
  destruct (getContext env); simpl; [|unfold media; simpl; congruence].
  destruct ((videoWidth video =? 0)%N || (videoHeight video =? 0)%N);
    unfold media; simpl; congruence.
Qed.

Lemma step_bound (fl : Q -> Q) (st : State) (i : Input) :
  bound st -> bound (fst (step fl st i)).
Proof.
  intros Hb.
  assert (K : forall c : Cmd, keepsMedia c -> bound (fst (c st))).
  { intros c Hc. apply (bound_media st); [apply Hc | exact Hb]. }
  destruct i; simpl.
  - unfold startCamera. rewrite !andThen_eq. simpl.
    apply (stopCamera_releases (set_cameraState _ st)).
  - apply stopCamera_releases.
  - unfold streamGranted.
    destruct (invocations st !! inv) as [[| | |]|]; try exact Hb.
    simpl. destruct (videoRef st) as [video|] eqn:Hv; unfold bound; simpl.
    + right. reflexivity.
    + rewrite Hv. exact I.
  - apply K, (keeps_streamRefused media); reflexivity.
  - unfold loadedMetadata, bound in *.
    destruct (videoRef st) as [video|] eqn:Hv; simpl; [exact Hb|].
    rewrite Hv. exact I.
  - apply K, (keeps_videoFailed media); reflexivity.
  - apply K, (keeps_playStarted media); reflexivity.
  - apply K, (keeps_playRefused media); reflexivity.
  - apply K, keepsMedia_timerFires.
  - unfold pressShutter. destruct (shutterDisabled st); [exact Hb|].
    apply K, keepsMedia_capturePhoto.
  - unfold pressGallery, downloadPhoto.
    destruct (capturedImage st) as [[|c s]|]; exact Hb.
  - exact Hb.
Qed.

Lemma reachable_bound (fl : Q -> Q) (st : State) :
  reachable fl st -> bound st.
Proof.
  induction 1 as [|st i _ IH].
  - left. reflexivity.
  - apply step_bound. exact IH.
Qed.

Lemma run_cons (fl : Q -> Q) (st : State) (i : Input) (rest : list Input) :
  run fl st (i :: rest) =
  (fst (run fl (fst (step fl st i)) rest),
   snd (step fl st i) ++ snd (run fl (fst (step fl st i)) rest)).
Proof.
  simpl. destruct (step fl st i) as [s1 e1]. simpl.
  destruct (run fl s1 rest). reflexivity.
Qed.

Lemma reachable_run (fl : Q -> Q) (inputs : list Input) :
  forall st : State,
    reachable fl st -> reachable fl (fst (run fl st inputs)).
Proof.
  induction inputs as [|i rest IH]; intros st H; [exact H|].
  rewrite run_cons. simpl. apply IH. constructor. exact H.
Qed.

Lemma reachable_playing : reachable exact playing.
Proof. apply reachable_run. constructor. Qed.

(** C7. [stopCamera] is total and idempotent.  From every reachable state,
    [n > 1] calls in a row end in the same state and make the same calls as
    one; a call without a held handle changes nothing and calls nothing; and
    no call writes the camera state. *)
Theorem stop_idempotent (fl : Q -> Q) (st : State) (n : nat) :
  reachable fl st ->
  (n > 1)%nat ->
  times n stopCamera st = stopCamera st /\
  stopCamera (fst (stopCamera st)) = (fst (stopCamera st), []) /\
  (streamRef st = None -> stopCamera st = (st, [])) /\
  cameraState (fst (stopCamera st)) = cameraState st /\
  statusWrites (snd (stopCamera st)) = [].
Proof.
  intros Hreach Hn. split; [|split; [|split]].
  - destruct n as [|n]; [lia|]. apply times_stopCamera.
  - apply stopCamera_idempotent.
  - intros Hs. apply stopCamera_idle; [exact Hs|].
    apply (reachable_bound fl). exact Hreach.
  - apply stopCamera_status.
Qed.

Lemma stop_idempotent_witness :
  times 3 stopCamera playing = stopCamera playing /\
  stopCamera initial = (initial, []).
Proof.
  split.
  - refine (proj1 (stop_idempotent exact playing 3 reachable_playing _)).
    lia.
  - refine (proj1 (proj2 (proj2
      (stop_idempotent exact initial 2 (reachable_initial exact) _))) eq_refl).
    lia.
Defined.

Lemma stopCamera_core (st : State) :
  streamRef (fst (stopCamera st)) = None /\
  invocations (fst (stopCamera st)) = invocations st /\
  cameraState (fst (stopCamera st)) = cameraState st /\
  streams (fst (stopCamera st)) =
    match streamRef st with
    | Some h =>
        match streams st !! h with
        | Some tracks => <[h := (fun _ => Ended) <$> tracks]> (streams st)
        | None => streams st
        end
    | None => streams st
    end.
Proof.
  rewrite stopCamera_eq. cbv zeta.
  destruct (streamRef st) as [h|] eqn:Hs;
    [destruct (streams st !! h) eqn:Hh|];
    destruct (videoRef st) eqn:Hv; simpl; rewrite ?Hs; auto.
Qed.

(** ** Start *)

Lemma startCamera_eq (st : State) :
  let s1 := set_cameraState (mkCameraState Requesting None) st in
  let s2 := fst (stopCamera s1) in
  startCamera st =
  (set_invocations (invocations s2 ++ [AwaitingStream]) s2,
   EvSetCameraState (mkCameraState Requesting None) ::
   snd (stopCamera s1) ++ [EvGetUserMedia (length (invocations s2))]).
Proof. unfold startCamera. rewrite !andThen_eq. reflexivity. Qed.

(** The [catch] clause writes status [Error] with one of three messages. *)
Lemma catchError_classified (err : Thrown) (st : State) :
  exists msg : string,
    catchError err st =
    (set_cameraState (mkCameraState Error (Some msg)) st,
     [EvSetCameraState (mkCameraState Error (Some msg))]) /\
    (msg = PermissionDenied \/ msg = DeviceNotFound \/
     exists m, msg = Other m).
Proof.
  unfold catchError.
  repeat match goal with
         | |- context [if ?b then _ else _] => destruct b
         end; eexists; (split; [reflexivity|]); eauto.
Qed.

(** Up to the request: the status write comes first, then the stops of the
    tracks of the held handle, then the request; when the request goes out
    the old handle is released and no handle is held. *)
Lemma startCamera_trace (st : State) :
  snd (startCamera st) =
  EvSetCameraState (mkCameraState Requesting None) ::
  match streamRef st with
  | Some h =>
      match streams st !! h with
      | Some tracks => map (EvTrackStop h) (seq 0 (length tracks))
      | None => []
      end
  | None => []
  end ++ [EvGetUserMedia (length (invocations st))].
Proof.
  unfold startCamera. rewrite !andThen_eq. simpl. f_equal.
  rewrite !stopCamera_eq. cbv zeta. simpl.
  destruct (streamRef st) as [h|]; [destruct (streams st !! h)|];
    destruct (videoRef st); reflexivity.
Qed.

Lemma liveStream_ended (tracks : MediaStream) :
  existsb isLive ((fun _ => Ended) <$> tracks) = false.
Proof. induction tracks; simpl; auto. Qed.

Lemma startCamera_released (st : State) (h : nat) :
  streamRef st = Some h ->
  let st' := fst (startCamera st) in
  streamRef st' = None /\
  liveStream st' h = false /\
  status (cameraState st') = Requesting /\
  invocations st' = invocations st ++ [AwaitingStream].
Proof.
  intros Hs. unfold startCamera. rewrite !andThen_eq. simpl.
  rewrite stopCamera_eq. cbv zeta. simpl. rewrite Hs.
  unfold liveStream.
  destruct (streams st !! h) as [tracks|] eqn:Hh;
    destruct (videoRef st); simpl; rewrite ?Hh; repeat split;
    rewrite list_lookup_insert_eq by (eapply lookup_lt_Some; eauto);
    apply liveStream_ended.
Qed.

(** ** One call of [startCamera], from the press to its outcome *)

Lemma stopCamera_rest (st : State) :
  videoRef (fst (stopCamera st)) = bind_srcObject None <$> videoRef st /\
  timers (fst (stopCamera st)) = timers st /\
  length (streams (fst (stopCamera st))) = length (streams st).
Proof.
  rewrite stopCamera_eq. cbv zeta.
  destruct (streamRef st) as [h|] eqn:Hs;
    [destruct (streams st !! h) eqn:Hh|];
    destruct (videoRef st) eqn:Hv; simpl;
    rewrite ?Hv, ?length_insert; auto.
Qed.

(** The state when the request goes out. *)
Lemma startCamera_after (st : State) :
  let st' := fst (startCamera st) in
  streamRef st' = None /\
  cameraState st' = mkCameraState Requesting None /\
  invocations st' = invocations st ++ [AwaitingStream] /\
  videoRef st' = bind_srcObject None <$> videoRef st /\
  timers st' = timers st /\
  length (streams st') = length (streams st).
Proof.
  rewrite startCamera_eq. cbv zeta. simpl.
  set (s1 := set_cameraState (mkCameraState Requesting None) st).
  destruct (stopCamera_core s1) as (Es & Ei & Ec & _).
  destruct (stopCamera_rest s1) as (Ev & Et & El).
  rewrite Es, Ei, Ec, Ev, Et, El. repeat split.
Qed.

Lemma awaiting_last (l : list Stage) (s : Stage) :
  (l ++ [s]) !! length l = Some s /\
  <[length l := Settled]> (l ++ [s]) = l ++ [Settled] /\
  <[length l := AwaitingMetadata]> (l ++ [s]) = l ++ [AwaitingMetadata].
Proof.
  split; [apply list_lookup_middle; reflexivity|].
  split.
  - replace (length l) with (length l + 0)%nat at 1 by lia.
    rewrite insert_app_r. reflexivity.
  - replace (length l) with (length l + 0)%nat at 1 by lia.
    rewrite insert_app_r. reflexivity.
Qed.

(** The request is rejected: status [Error] with one of the three
    messages, and no handle is held. *)
Lemma start_refused_no_handle (fl : Q -> Q) (st : State) (err : Thrown) :
  let r := run fl st [PressStart; StreamRefused (length (invocations st)) err] in
  status (cameraState (fst r)) = Error /\
  (exists msg : string,
     error (cameraState (fst r)) = Some msg /\
     (msg = PermissionDenied \/ msg = DeviceNotFound \/
      exists m, msg = Other m)) /\
  streamRef (fst r) = None /\
  invocations (fst r) = invocations st ++ [Settled].
Proof.
  cbv zeta. rewrite run_cons. cbn [fst snd run step].
  destruct (startCamera_after st) as (Es & Ec & Ei & Ev & Et & El).
  set (s1 := fst (startCamera st)) in *.
  destruct (awaiting_last (invocations st) AwaitingStream) as (L1 & L2 & _).
  unfold streamRefused. rewrite Ei, L1.
  destruct (catchError_classified err (settle (length (invocations st)) s1))
    as (msg & E & Hmsg).
  destruct (catchError err (settle (length (invocations st)) s1))
    as [s2 e2] eqn:Ecatch.
  injection E as -> _. simpl. unfold settle. simpl.
  rewrite Ei, L2. repeat split; eauto.
Qed.

(** The request is granted, with the video mounted: the new handle is
    stored and bound, the time-out is armed, the call awaits readiness. *)
Lemma start_granted (fl : Q -> Q) (st : State) (video : Video) (n : nat) :
  videoRef st = Some video ->
  let inv := length (invocations st) in
  let h := length (streams st) in
  let s2 := fst (run fl st [PressStart; StreamGranted inv n]) in
  streamRef s2 = Some h /\
  streams s2 !! h = Some (replicate n Live) /\
  videoRef s2 = Some (mkVideo (Some h) (videoWidth video) (videoHeight video)) /\
  invocations s2 = invocations st ++ [AwaitingMetadata] /\
  cameraState s2 = mkCameraState Requesting None /\
  timers s2 = timers st ++ [mkTimer (ReadinessTimeout inv) 5000].
Proof.
  intros Hv. cbv zeta. rewrite run_cons. cbn [fst snd run step].
  destruct (startCamera_after st) as (Es & Ec & Ei & Ev' & Et & El).
  set (s1 := fst (startCamera st)) in *.
  destruct (awaiting_last (invocations st) AwaitingStream) as (L1 & _ & L3).
  rewrite Hv in Ev'. simpl in Ev'.
  unfold streamGranted. rewrite Ei, L1. simpl. rewrite Ev'. simpl.
  rewrite Ei, L3, El, Ec, Et. repeat split.
  apply list_lookup_middle. symmetry. exact El.
Qed.

(** Readiness is reached and playback begins: status [Active], the handle
    stored and bound. *)
Lemma start_success (fl : Q -> Q) (st : State) (video : Video) (n : nat)
    (w h : N) :
  videoRef st = Some video ->
  let inv := length (invocations st) in
  let hn := length (streams st) in
  let r :=
    run fl st
      [PressStart; StreamGranted inv n; LoadedMetadata w h; PlayStarted inv] in
  cameraState (fst r) = mkCameraState Active None /\
  streamRef (fst r) = Some hn /\
  streams (fst r) !! hn = Some (replicate n Live) /\
  videoRef (fst r) = Some (mkVideo (Some hn) w h) /\
  statusWrites (snd r) = [Requesting; Active].
Proof.
  intros Hv. cbv zeta.
  destruct (start_granted fl st video n Hv) as (Gs & Gt & Gv & Gi & Gc & _).
  rewrite run_cons in Gs, Gt, Gv, Gi, Gc. cbn [fst] in Gs, Gt, Gv, Gi, Gc.
  rewrite run_cons in Gs, Gt, Gv, Gi, Gc. cbn [fst run] in Gs, Gt, Gv, Gi, Gc.
  rewrite !run_cons. cbn [fst snd run].
  set (s1 := fst (step fl st PressStart)) in *.
  assert (W1 : statusWrites (snd (startCamera st)) = [Requesting]).
  { rewrite startCamera_trace. simpl. rewrite statusWrites_app.
    destruct (streamRef st) as [h0|]; [destruct (streams st !! h0)|];
      rewrite ?statusWrites_trackStops; reflexivity. }
  assert (W2 : snd (streamGranted (length (invocations st))
                      (replicate n Live) s1) = []).
  { unfold streamGranted.
    destruct (invocations s1 !! length (invocations st)) as [[| | |]|];
      try reflexivity. simpl. destruct (videoRef s1); reflexivity. }
  set (s2 := fst (step fl s1 (StreamGranted (length (invocations st)) n))) in *.
  cbn [step]. unfold loadedMetadata. rewrite Gv. cbn [fst snd].
  unfold playStarted. cbn [invocations set_invocations set_videoRef].
  rewrite Gi, fmap_app. simpl fmap.
  assert (L1 : ((played <$> invocations st) ++ [AwaitingPlay])
                 !! length (invocations st) = Some AwaitingPlay).
  { apply list_lookup_middle. rewrite length_fmap. reflexivity. }
  rewrite L1. simpl. rewrite Gs, Gt, W2, statusWrites_app, W1.
  repeat split.
Qed.

(** Readiness fails after the request was granted: status [Error] with
    one of the three messages, and the handle granted is still stored,
    bound and untouched. *)
Lemma start_readiness_failure (fl : Q -> Q) (st : State) (video : Video)
    (n : nat) (err : Thrown) :
  videoRef st = Some video ->
  let inv := length (invocations st) in
  let hn := length (streams st) in
  let s2 := fst (run fl st [PressStart; StreamGranted inv n]) in
  let r := readinessRejected inv err s2 in
  status (cameraState (fst r)) = Error /\
  (exists msg : string,
     error (cameraState (fst r)) = Some msg /\
     (msg = PermissionDenied \/ msg = DeviceNotFound \/
      exists m, msg = Other m)) /\
  streamRef (fst r) = Some hn /\
  streams (fst r) !! hn = Some (replicate n Live) /\
  videoRef (fst r) =
    Some (mkVideo (Some hn) (videoWidth video) (videoHeight video)).
Proof.
  intros Hv. cbv zeta.
  destruct (start_granted fl st video n Hv) as (Gs & Gt & Gv & Gi & Gc & _).
  set (s2 := fst (run fl st [PressStart;
                   StreamGranted (length (invocations st)) n])) in *.
  pose proof (keeps_readinessRejected media
    ltac:(reflexivity) ltac:(reflexivity)
    (length (invocations st)) err s2) as Hm.
  unfold media in Hm. injection Hm as M1 M2 M3.
  rewrite M1, M2, M3, Gs, Gt, Gv.
  unfold readinessRejected. rewrite Gi.
  destruct (awaiting_last (invocations st) AwaitingMetadata) as (L1 & _ & _).
  rewrite L1.
  destruct (catchError_classified err (settle (length (invocations st)) s2))
    as (msg & E & Hmsg).
  rewrite E. simpl. repeat split; eauto.
Qed.

(** C1. Failure of [startCamera].  The stream is stored in [streamRef] and
    bound to the video before readiness is awaited, and the [catch] clause
    releases nothing: when readiness fails (time-out, [error] event of the
    video, [play()] rejected) the status is [Error] with the message for
    the third category, and the new handle is still held, live and bound. *)
Theorem readiness_failure_keeps_stream :
  let held (st : State) :=
    streamRef st = Some 0%nat /\
    liveHandles st = [0%nat] /\
    (srcObject <$> videoRef st) = Some (Some 0%nat) /\
    invocations st = [Settled] in
  let r1 := run exact initial [PressStart; StreamGranted 0 1; TimerFires 0] in
  let r2 := run exact initial [PressStart; StreamGranted 0 1; VideoFailed] in
  let r3 :=
    run exact initial
      [PressStart; StreamGranted 0 1; LoadedMetadata 1280 720;
       PlayRefused 0 notReadable] in
  cameraState (fst r1) =
    mkCameraState Error (Some (Other "Camera initialization timed out")) /\
  held (fst r1) /\
  cameraState (fst r2) =
    mkCameraState Error (Some (Other "Video failed to load")) /\
  held (fst r2) /\
  cameraState (fst r3) =
    mkCameraState Error
      (Some (Other "NotReadableError: Could not start video source")) /\
  held (fst r3).
Proof. cbv zeta. evaluate. Qed.

(** ** One start at a time *)

Lemma orderly_core (st st' : State) :
  core st' = core st -> orderly st -> orderly st'.
Proof.
  unfold core. intros E [H1 H2 H3 H4]. injection E as E1 E2 E3 E4.
  constructor; unfold liveStream; rewrite ?E1, ?E2, ?E3, ?E4; auto.
Qed.

Lemma orderly_initial : orderly initial.
Proof. constructor; simpl; intros; discriminate. Qed.

(** The call under way settles. *)
Lemma orderly_settle (st : State) (inv : nat) (s : Stage) (cs : CameraState) :
  orderly st ->
  invocations st !! inv = Some s -> pending s = true ->
  orderly (set_cameraState cs (settle inv st)).
Proof.
  intros [H1 H2 H3 H4] Hinv Hp.
  assert (Hlt : (inv < length (invocations st))%nat)
    by (eapply lookup_lt_Some; eauto).
  assert (Hother : forall i si,
            (<[inv := Settled]> (invocations st)) !! i = Some si ->
            pending si = true ->
            False).
  { intros i si Hi Hpi. destruct (decide (inv = i)) as [->|Hne].
    - rewrite list_lookup_insert_eq in Hi by exact Hlt.
      injection Hi as <-. discriminate.
    - rewrite list_lookup_insert_ne in Hi by exact Hne.
      apply Hne. eapply H2; eauto. }
  constructor; simpl.
  - exact H1.
  - intros i j si sj Hi Hj Hpi _. exfalso. eapply Hother; eauto.
  - intros i Hi. exfalso. eapply Hother; eauto.
  - intros i si Hi Hpi. exfalso. eapply Hother; eauto.
Qed.

Lemma orderly_catchError (st : State) (inv : nat) (s : Stage) (err : Thrown) :
  orderly st ->
  invocations st !! inv = Some s -> pending s = true ->
  orderly (fst (catchError err (settle inv st))) /\
  statusWrites (snd (catchError err (settle inv st))) = [Error] /\
  status (cameraState (fst (catchError err (settle inv st)))) = Error.
Proof.
  intros Ho Hinv Hp.
  destruct (catchError_classified err (settle inv st)) as (msg & E & _).
  rewrite E. simpl. split; [|split; reflexivity].
  eapply orderly_settle; eauto.
Qed.

Lemma last_cons_default (x d : Status) (l : list Status) :
  List.last (x :: l) d = List.last l x.
Proof.
  revert x d. induction l as [|y l IH]; intros x d; [reflexivity|].
  change (List.last (x :: y :: l) d) with (List.last (y :: l) d).
  rewrite !IH. reflexivity.
Qed.

Lemma noSkip_app (cur : Status) (w1 w2 : list Status) :
  noSkip cur w1 -> noSkip (List.last w1 cur) w2 -> noSkip cur (w1 ++ w2).
Proof.
  revert cur. induction w1 as [|w w1 IH]; intros cur H1 H2; [exact H2|].
  destruct H1 as [Hw H1]. split; [exact Hw|]. apply IH; [exact H1|].
  rewrite last_cons_default in H2. exact H2.
Qed.

Lemma last_app_default (cur : Status) (w1 w2 : list Status) :
  List.last (w1 ++ w2) cur = List.last w2 (List.last w1 cur).
Proof.
  revert cur. induction w1 as [|w w1 IH]; intros cur; [reflexivity|].
  change ((w :: w1) ++ w2) with (w :: (w1 ++ w2)).
  rewrite !last_cons_default. apply IH.
Qed.

Lemma wellBehaved_andThen (c1 c2 : Cmd) :
  wellBehaved c1 -> wellBehaved c2 -> wellBehaved (c1 >> c2).
Proof.
  intros W1 W2 st Ho. rewrite andThen_eq. simpl.
  destruct (W1 st Ho) as (O1 & N1 & L1).
  destruct (W2 (fst (c1 st)) O1) as (O2 & N2 & L2).
  rewrite statusWrites_app. split; [exact O2|]. split.
  - apply noSkip_app; [exact N1|]. rewrite <- L1. exact N2.
  - rewrite last_app_default, <- L1. exact L2.
Qed.

Lemma wellBehaved_skip : wellBehaved skip.
Proof. intros st Ho. simpl. auto. Qed.

(** A command that settles invocation [inv] at the stages chosen by
    [fires], through the [catch] clause. *)
Lemma wellBehaved_reject (inv : nat) (err : Thrown) (fires : Stage -> bool) :
  (forall s, fires s = true -> pending s = true) ->
  wellBehaved (fun st =>
    match invocations st !! inv with
    | Some s => if fires s then catchError err (settle inv st) else (st, [])
    | None => (st, [])
    end).
Proof.
  intros Hf st Ho. destruct (invocations st !! inv) as [s|] eqn:Hinv;
    [|simpl; auto].
  destruct (fires s) eqn:Hs; [|simpl; auto].
  destruct (orderly_catchError st inv s err Ho Hinv (Hf s Hs))
    as (O & W & S).
  rewrite W, S. simpl. split; [exact O|]. split; [|reflexivity].
  split; [|exact I]. right. eapply pending_requesting; eauto.
Qed.

Lemma wellBehaved_readinessRejected (inv : nat) (err : Thrown) :
  wellBehaved (readinessRejected inv err).
Proof.
  intros st.
  generalize (wellBehaved_reject inv err
    (fun s => match s with
              | AwaitingMetadata | AwaitingPlay => true
              | _ => false
              end)
    ltac:(intros []; simpl; congruence) st).
  unfold readinessRejected.
  destruct (invocations st !! inv) as [[| | |]|]; auto.
Qed.

Lemma wellBehaved_streamRefused (inv : nat) (err : Thrown) :
  wellBehaved (streamRefused inv err).
Proof.
  intros st.
  generalize (wellBehaved_reject inv err
    (fun s => match s with AwaitingStream => true | _ => false end)
    ltac:(intros []; simpl; congruence) st).
  unfold streamRefused.
  destruct (invocations st !! inv) as [[| | |]|]; auto.
Qed.

Lemma wellBehaved_playRefused (inv : nat) (err : Thrown) :
  wellBehaved (playRefused inv err).
Proof.
  intros st.
  generalize (wellBehaved_reject inv err
    (fun s => match s with AwaitingPlay => true | _ => false end)
    ltac:(intros []; simpl; congruence) st).
  unfold playRefused.
  destruct (invocations st !! inv) as [[| | |]|]; auto.
Qed.

Lemma wellBehaved_playStarted (inv : nat) : wellBehaved (playStarted inv).
Proof.
  intros st Ho. unfold playStarted.
  destruct (invocations st !! inv) as [s|] eqn:Hinv; [|simpl; auto].
  destruct s; try (simpl; auto; fail).
  simpl. split; [|split; [split; [|exact I]|reflexivity]].
  - eapply orderly_settle; eauto.
  - right. eapply pending_requesting; eauto.
Qed.

Lemma wellBehaved_rejectEach (err : Thrown) (invs : list nat) :
  wellBehaved (rejectEach err invs).
Proof.
  induction invs as [|inv invs IH]; [apply wellBehaved_skip|].
  apply wellBehaved_andThen; [apply wellBehaved_readinessRejected | exact IH].
Qed.

(** A command that leaves the core alone and writes no status. *)
Lemma wellBehaved_core (c : Cmd) :
  (forall st, core (fst (c st)) = core st) ->
  (forall st, statusWrites (snd (c st)) = []) ->
  wellBehaved c.
Proof.
  intros Hc Hw st Ho. rewrite Hw. simpl. split; [|split; [exact I|]].
  - apply (orderly_core st); [apply Hc | exact Ho].
  - specialize (Hc st). unfold core in Hc. congruence.
Qed.

Lemma orderly_stopCamera (st : State) :
  orderly st ->
  orderly (fst (stopCamera st)) /\
  forall h : nat, liveStream (fst (stopCamera st)) h = false.
Proof.
  intros [H1 H2 H3 H4].
  destruct (stopCamera_core st) as (Es & Ei & Ec & Et).
  assert (Hdead : forall h, liveStream (fst (stopCamera st)) h = false).
  { intros h. destruct (liveStream (fst (stopCamera st)) h) eqn:L; [|easy].
    exfalso. unfold liveStream in L. rewrite Et in L.
    destruct (streamRef st) as [h0|] eqn:Hs.
    - destruct (streams st !! h0) as [tracks|] eqn:Hh0.
      + destruct (decide (h0 = h)) as [->|Hne].
        * rewrite list_lookup_insert_eq in L
            by (eapply lookup_lt_Some; eauto).
          rewrite liveStream_ended in L. discriminate.
        * rewrite list_lookup_insert_ne in L by exact Hne.
          specialize (H1 h L). injection H1 as H1. contradiction.
      + pose proof (H1 h L) as E. injection E as <-.
        rewrite Hh0 in L. discriminate.
    - specialize (H1 h L). discriminate. }
  split; [|exact Hdead].
  constructor.
  - intros h L. rewrite Hdead in L. discriminate.
  - rewrite Ei. exact H2.
  - intros i _. exact Es.
  - rewrite Ei, Ec. exact H4.
Qed.

Lemma wellBehaved_stopCamera : wellBehaved stopCamera.
Proof.
  intros st Ho. destruct (stopCamera_status st) as [Ec Ew].
  rewrite Ew, Ec. simpl. split; [|auto].
  apply orderly_stopCamera. exact Ho.
Qed.

Lemma orderly_requesting (st : State) :
  orderly st -> orderly (set_cameraState (mkCameraState Requesting None) st).
Proof. intros [H1 H2 H3 H4]. constructor; auto. Qed.

(** A start in its turn. *)
Lemma orderly_startCamera (st : State) :
  orderly st -> quiescent st ->
  orderly (fst (startCamera st)) /\
  statusWrites (snd (startCamera st)) = [Requesting] /\
  status (cameraState (fst (startCamera st))) = Requesting.
Proof.
  intros Ho Hq. rewrite startCamera_eq. cbv zeta. simpl.
  set (s1 := set_cameraState (mkCameraState Requesting None) st).
  destruct (orderly_stopCamera s1 (orderly_requesting st Ho)) as [O2 Hdead].
  destruct (stopCamera_core s1) as (Es & Ei & Ec & _).
  destruct (stopCamera_status s1) as [_ Ew].
  split; [|split].
  - assert (Hlast : forall i s,
              (invocations (fst (stopCamera s1)) ++ [AwaitingStream]) !! i
                = Some s ->
              pending s = true ->
              i = length (invocations st)).
    { intros i s Hi Hp. rewrite Ei in Hi. simpl in Hi.
      destruct (decide (i < length (invocations st))%nat) as [Hlt|Hge].
      - rewrite lookup_app_l in Hi by exact Hlt.
        rewrite (Hq i s Hi) in Hp. discriminate.
      - apply lookup_lt_Some in Hi. rewrite length_app in Hi.
        simpl in Hi. lia. }
    constructor; simpl.
    + intros h L. change (liveStream (fst (stopCamera s1)) h = true) in L.
      rewrite Hdead in L. discriminate.
    + intros i j si sj Hi Hj Hpi Hpj.
      rewrite (Hlast i si Hi Hpi), (Hlast j sj Hj Hpj). reflexivity.
    + intros i _. exact Es.
    + intros i s _ _. rewrite Ec. reflexivity.
  - rewrite statusWrites_app, Ew. reflexivity.
  - rewrite Ec. reflexivity.
Qed.

Lemma wellBehaved_streamGranted (inv : nat) (tracks : MediaStream) :
  wellBehaved (streamGranted inv tracks).
Proof.
  intros st Ho. unfold streamGranted.
  destruct (invocations st !! inv) as [s|] eqn:Hinv; [|simpl; auto].
  destruct s; try (simpl; auto; fail).
  destruct Ho as [H1 H2 H3 H4].
  assert (Hlt : (inv < length (invocations st))%nat)
    by (eapply lookup_lt_Some; eauto).
  assert (Hunheld : streamRef st = None) by (eapply H3; eauto).
  assert (Hother : forall (x : Stage) i si,
            (<[inv := x]> (invocations st)) !! i = Some si ->
            pending si = true -> i = inv /\ si = x).
  { intros x i si Hi Hpi. destruct (decide (inv = i)) as [->|Hne].
    - rewrite list_lookup_insert_eq in Hi by exact Hlt.
      injection Hi as <-. auto.
    - rewrite list_lookup_insert_ne in Hi by exact Hne.
      exfalso. apply Hne. symmetry. eapply H2; eauto. }
  assert (Hlive : forall h,
            match (streams st ++ [tracks]) !! h with
            | Some t => existsb isLive t
            | None => false
            end = true -> Some (length (streams st)) = Some h).
  { intros h L.
    destruct (decide (h < length (streams st))%nat) as [Hh|Hh].
    - rewrite lookup_app_l in L by exact Hh.
      specialize (H1 h L). congruence.
    - destruct (decide (h = length (streams st))) as [->|Hne]; [reflexivity|].
      rewrite lookup_ge_None_2 in L; [discriminate|].
      rewrite length_app. simpl. lia. }
  assert (Hreq : status (cameraState st) = Requesting)
    by (eapply H4; eauto).
  simpl. destruct (videoRef st) as [video|] eqn:Hv; simpl;
    (split; [|auto]); constructor; simpl.
  - exact Hlive.
  - intros i j si sj Hi Hj Hpi Hpj.
    destruct (Hother _ _ _ Hi Hpi) as [-> _].
    destruct (Hother _ _ _ Hj Hpj) as [-> _]. reflexivity.
  - intros i Hi. destruct (Hother _ _ _ Hi eq_refl) as [_ ?]. discriminate.
  - intros; exact Hreq.
  - exact Hlive.
  - intros i j si sj Hi Hj Hpi Hpj.
    destruct (Hother _ _ _ Hi Hpi) as [-> _].
    destruct (Hother _ _ _ Hj Hpj) as [-> _]. reflexivity.
  - intros i Hi. destruct (Hother _ _ _ Hi eq_refl) as [_ ?]. discriminate.
  - intros; exact Hreq.
Qed.

Lemma wellBehaved_loadedMetadata (w h : N) : wellBehaved (loadedMetadata w h).
Proof.
  intros st [H1 H2 H3 H4]. unfold loadedMetadata. simpl.
  assert (Hback : forall i s,
            (played <$> invocations st) !! i = Some s ->
            exists s0, invocations st !! i = Some s0 /\ s = played s0).
  { intros i s Hi. rewrite list_lookup_fmap in Hi.
    destruct (invocations st !! i) as [s0|]; [|discriminate].
    injection Hi as <-. eauto. }
  assert (Hpend : forall s0, pending (played s0) = pending s0)
    by (intros []; reflexivity).
  split; [|destruct (videoRef st); simpl; auto].
  assert (O : orderly (set_invocations (played <$> invocations st) st)).
  { constructor; simpl.
    - exact H1.
    - intros i j si sj Hi Hj Hpi Hpj.
      destruct (Hback _ _ Hi) as (si0 & Hi0 & ->).
      destruct (Hback _ _ Hj) as (sj0 & Hj0 & ->).
      rewrite Hpend in Hpi, Hpj. eapply H2; eauto.
    - intros i Hi. destruct (Hback _ _ Hi) as (s0 & Hi0 & E).
      destruct s0; try discriminate. eapply H3; eauto.
    - intros i s Hi Hp. destruct (Hback _ _ Hi) as (s0 & Hi0 & ->).
      rewrite Hpend in Hp. eapply H4; eauto. }
  destruct (videoRef st) as [video|]; [|exact O].
  apply (orderly_core (set_invocations (played <$> invocations st) st));
    [reflexivity | exact O].
Qed.

Lemma wellBehaved_timerFires (k : nat) : wellBehaved (timerFires k).
Proof.
  intros st Ho. unfold timerFires.
  destruct (timers st !! k) as [[a d]|]; [|simpl; auto]. simpl.
  assert (O : orderly (set_timers (delete k (timers st)) st))
    by (apply (orderly_core st); [reflexivity | exact Ho]).
  destruct a as [| |inv]; simpl.
  - split; [|auto]. apply (orderly_core st); [reflexivity | exact Ho].
  - split; [|auto]. apply (orderly_core st); [reflexivity | exact Ho].
  - apply (wellBehaved_readinessRejected inv _ _ O).
Qed.

Lemma core_capturePhoto (fl : Q -> Q) (fc : Z) (mode : FilterMode)
    (env : CaptureEnv) (st : State) :
  core (fst (capturePhoto fl fc mode env st)) = core st /\
  statusWrites (snd (capturePhoto fl fc mode env st)) = [].
Proof.
  unfold capturePhoto.
  destruct (videoRef st) as [video|]; [|auto].
  destruct (canvasRef st); [|auto].
  destruct (fc <=? 0); [auto|].
  destruct (getContext env); simpl; [|auto].
  destruct ((videoWidth video =? 0)%N || (videoHeight video =? 0)%N);
    simpl; auto.
Qed.

(** One step of a run with one start at a time. *)
Lemma in_turn_step (fl : Q -> Q) (st : State) (i : Input) :
  orderly st -> inTurn st i ->
  orderly (fst (step fl st i)) /\
  noSkip (status (cameraState st)) (statusWrites (snd (step fl st i))) /\
  status (cameraState (fst (step fl st i))) =
    List.last (statusWrites (snd (step fl st i))) (status (cameraState st)).
Proof.
  intros Ho Hturn. destruct i; simpl.
  - destruct (orderly_startCamera st Ho (Hturn eq_refl)) as (O & W & S).
    rewrite W, S. simpl. auto.
  - apply wellBehaved_stopCamera. exact Ho.
  - apply wellBehaved_streamGranted. exact Ho.
  - apply wellBehaved_streamRefused. exact Ho.
  - apply wellBehaved_loadedMetadata. exact Ho.
  - apply wellBehaved_rejectEach. exact Ho.
  - apply wellBehaved_playStarted. exact Ho.
  - apply wellBehaved_playRefused. exact Ho.
  - apply wellBehaved_timerFires. exact Ho.
  - unfold pressShutter. destruct (shutterDisabled st); [simpl; auto|].
    destruct (core_capturePhoto fl (filmCount st) (selectedMode st) env st)
      as [Ec Ew].
    apply (wellBehaved_core (capturePhoto fl _ _ env)); [| |exact Ho];
      intros s; apply core_capturePhoto.
  - unfold pressGallery, downloadPhoto.
    destruct (capturedImage st) as [[|c s]|]; simpl; auto.
  - simpl. split; [|auto]. apply (orderly_core st); [reflexivity|exact Ho].
Qed.

Lemma in_turn_orderly (fl : Q -> Q) (st : State) :
  reachableInTurn fl st -> orderly st.
Proof.
  induction 1 as [|st i _ IH Hturn]; [apply orderly_initial|].
  apply in_turn_step; assumption.
Qed.

(** With one start at a time at most one handle is live, and it is the one
    held in [streamRef]. *)
Lemma in_turn_one_live (fl : Q -> Q) (st : State) :
  reachableInTurn fl st ->
  (forall h : nat, liveStream st h = true -> streamRef st = Some h) /\
  (length (liveHandles st) <= 1)%nat.
Proof.
  intros Hr. pose proof (in_turn_orderly fl st Hr) as [H1 _ _ _].
  split; [exact H1|].
  assert (Hsame : forall a b, In a (liveHandles st) ->
                    In b (liveHandles st) -> a = b).
  { intros a b Ha Hb. unfold liveHandles in *.
    apply filter_In in Ha, Hb. destruct Ha as [_ Ha], Hb as [_ Hb].
    pose proof (H1 a Ha) as Ea. pose proof (H1 b Hb) as Eb.
    rewrite Ea in Eb. injection Eb as Eb. exact Eb. }
  assert (Hnd : List.NoDup (liveHandles st))
    by (apply List.NoDup_filter, List.seq_NoDup).
  destruct (liveHandles st) as [|a [|b l]]; simpl; try lia.
  exfalso. inversion Hnd as [|? ? Hnotin _]; subst. apply Hnotin.
  rewrite (Hsame a b); simpl; auto.
Qed.

(** With one start at a time no write of the status skips [Requesting]. *)
Lemma in_turn_no_skip (fl : Q -> Q) (inputs : list Input) :
  forall st : State,
    orderly st -> allInTurn fl st inputs ->
    orderly (fst (run fl st inputs)) /\
    noSkip (status (cameraState st)) (statusWrites (snd (run fl st inputs))) /\
    status (cameraState (fst (run fl st inputs))) =
      List.last (statusWrites (snd (run fl st inputs)))
        (status (cameraState st)).
Proof.
  induction inputs as [|i rest IH]; intros st Ho Hall; [simpl; auto|].
  destruct Hall as [Hturn Hrest]. rewrite run_cons. simpl.
  destruct (in_turn_step fl st i Ho Hturn) as (O1 & N1 & L1).
  destruct (IH _ O1 Hrest) as (O2 & N2 & L2).
  rewrite statusWrites_app. split; [exact O2|]. split.
  - apply noSkip_app; [exact N1|]. rewrite <- L1. exact N2.
  - rewrite last_app_default, <- L1. exact L2.
Qed.

(** ** A stream that is no longer held

    Only the handle in [streamRef] is ever stopped, and a handle that has
    left [streamRef] never comes back: new handles are fresh. *)
Lemma orphan_media (st st' : State) (h : nat) :
  media st' = media st -> orphan st h ->
  streams st' !! h = streams st !! h /\ orphan st' h.
Proof.
  unfold media, orphan. intros E. injection E as E1 E2 E3.
  rewrite E1, E2. auto.
Qed.

Lemma orphan_stopCamera (st : State) (h : nat) :
  orphan st h ->
  streams (fst (stopCamera st)) !! h = streams st !! h /\
  orphan (fst (stopCamera st)) h.
Proof.
  intros [Hlt Hne]. destruct (stopCamera_core st) as (Es & _ & _ & Et).
  unfold orphan. rewrite Es, Et.
  destruct (streamRef st) as [h0|]; [|auto].
  destruct (streams st !! h0) as [tracks|]; [|auto].
  rewrite length_insert.
  rewrite list_lookup_insert_ne by congruence. auto.
Qed.

Lemma orphan_step (fl : Q -> Q) (st : State) (i : Input) (h : nat) :
  orphan st h ->
  streams (fst (step fl st i)) !! h = streams st !! h /\
  orphan (fst (step fl st i)) h.
Proof.
  intros Ho.
  assert (K : forall c : Cmd, keepsMedia c ->
            streams (fst (c st)) !! h = streams st !! h /\
            orphan (fst (c st)) h).
  { intros c Hc. apply orphan_media; [apply Hc | exact Ho]. }
  destruct i; simpl.
  - rewrite startCamera_eq. cbv zeta. simpl.
    apply (orphan_stopCamera (set_cameraState _ st)). exact Ho.
  - apply orphan_stopCamera. exact Ho.
  - unfold streamGranted.
    destruct (invocations st !! inv) as [s|]; [|auto].
    destruct s; auto. destruct Ho as [Hlt Hne].
    assert (G : (streams st ++ [replicate ntracks Live]) !! h
                = streams st !! h /\
                (h < length (streams st ++ [replicate ntracks Live]))%nat /\
                Some (length (streams st)) <> Some h).
    { rewrite lookup_app_l by exact Hlt. rewrite length_app. simpl.
      repeat split; [lia|]. intros E. injection E as E. lia. }
    destruct G as (G1 & G2 & G3). simpl.
    destruct (videoRef st); simpl;
      (split; [exact G1 | split; [exact G2 | exact G3]]).
  - apply K, (keeps_streamRefused media); reflexivity.
  - unfold loadedMetadata, orphan in *.
    destruct (videoRef st); simpl; auto.
  - apply K, (keeps_videoFailed media); reflexivity.
  - apply K, (keeps_playStarted media); reflexivity.
  - apply K, (keeps_playRefused media); reflexivity.
  - apply K, keepsMedia_timerFires.
  - unfold pressShutter. destruct (shutterDisabled st); [auto|].
    apply K, keepsMedia_capturePhoto.
  - unfold pressGallery, downloadPhoto.
    destruct (capturedImage st) as [[|c s]|]; auto.
  - auto.
Qed.

Lemma orphan_forever (fl : Q -> Q) (inputs : list Input) :
  forall (st : State) (h : nat),
    orphan st h ->
    liveStream (fst (run fl st inputs)) h = liveStream st h /\
    orphan (fst (run fl st inputs)) h.
Proof.
  induction inputs as [|i rest IH]; intros st h Ho; [auto|].
  rewrite run_cons. cbn [fst snd].
  destruct (orphan_step fl st i h Ho) as [E O1].
  destruct (IH _ h O1) as [E2 O2]. split; [|exact O2].
  rewrite E2. unfold liveStream. rewrite E. reflexivity.
Qed.

(** C2. One live handle at most.  [startCamera] releases the handle held
    in [streamRef] before it requests a new one, but a start made while an
    earlier one still awaits its stream finds nothing to release: once both
    streams are granted two handles are live, the first is no longer
    referenced, a later start stops the tracks of the second only, and
    whatever happens next the first stays live. *)
Theorem overlapping_starts_two_live :
  let r := run exact initial pressedTwice in
  let r' := step exact (fst r) PressStart in
  snd r =
    [EvSetCameraState (mkCameraState Requesting None); EvGetUserMedia 0;
     EvSetCameraState (mkCameraState Requesting None); EvGetUserMedia 1] /\
  liveHandles (fst r) = [0%nat; 1%nat] /\
  streamRef (fst r) = Some 1%nat /\
  snd r' =
    [EvSetCameraState (mkCameraState Requesting None); EvTrackStop 1 0;
     EvGetUserMedia 2] /\
  liveHandles (fst r') = [0%nat] /\
  streamRef (fst r') = None /\
  forall inputs : list Input,
    liveStream (fst (run exact (fst r) inputs)) 0 = true /\
    streamRef (fst (run exact (fst r) inputs)) <> Some 0%nat.
Proof.
  cbv zeta. do 6 (split; [vm_compute; reflexivity|]).
  intros inputs.
  destruct (orphan_forever exact inputs (fst (run exact initial pressedTwice))
              0%nat) as [L [_ O]].
  - split; [vm_compute; lia | vm_compute; discriminate].
  - rewrite L. split; [vm_compute; reflexivity | exact O].
Qed.

(** C6. No transition skips [Requesting].  Every call of [startCamera]
    writes [Requesting] first, but with two calls under way the second to
    settle writes over the status left by the first: [Active] is followed
    by [Error], or [Error] by [Active], with no [Requesting] in between. *)
Theorem overlapping_starts_skip_requesting :
  let r1 :=
    run exact initial
      [PressStart; PressStart; StreamGranted 0 1; LoadedMetadata 1280 720;
       PlayStarted 0; StreamRefused 1 notReadable] in
  let r2 :=
    run exact initial
      [PressStart; PressStart; StreamRefused 0 notReadable;
       StreamGranted 1 1; LoadedMetadata 1280 720; PlayStarted 1] in
  statusWrites (snd r1) = [Requesting; Requesting; Active; Error] /\
  status (cameraState (fst r1)) = Error /\
  statusWrites (snd r2) = [Requesting; Requesting; Error; Active] /\
  status (cameraState (fst r2)) = Active.
Proof. cbv zeta. evaluate. Qed.

(** * Further properties *)

(** ** Film and artifacts along a run *)

(** One step either leaves the film cells alone and produces nothing, or
    takes one unit of film that was there and holds the artifact it
    produced. *)
Lemma step_film_artifact (fl : Q -> Q) (st : State) (i : Input) :
  (artifacts (snd (step fl st i)) = [] /\
   filmCount (fst (step fl st i)) = filmCount st /\
   capturedImage (fst (step fl st i)) = capturedImage st) \/
  (exists url : string,
     artifacts (snd (step fl st i)) = [url] /\
     filmCount (fst (step fl st i)) = filmCount st - 1 /\
     capturedImage (fst (step fl st i)) = Some url /\
     0 < filmCount st).
Proof.
  assert (K : forall j, (forall env, j <> PressShutter env) ->
            artifacts (snd (step fl st j)) = [] /\
            filmCount (fst (step fl st j)) = filmCount st /\
            capturedImage (fst (step fl st j)) = capturedImage st).
  { intros j Hj. destruct (keepsFilm_unless_shutter fl j Hj st) as (A & B & C).
    auto. }
  destruct i; try (left; apply K; discriminate).
  cbn [step]. unfold pressShutter, shutterDisabled.
  destruct (status (cameraState st)); try (left; auto; fail).
  destruct (filmCount st <=? 0) eqn:E; [left; auto|].
  apply Z.leb_gt in E. unfold capturePhoto.
  destruct (videoRef st) as [video|]; [|left; auto].
  destruct (canvasRef st) as [canvas|]; [|left; auto].
  destruct (filmCount st <=? 0); [left; auto|].
  destruct (getContext env); cbn [negb]; [|left; auto].
  destruct ((videoWidth video =? 0)%N || (videoHeight video =? 0)%N);
    [left; auto|].
  right. eexists. rewrite !andThen_eq. cbn. repeat split. exact E.
Qed.

Lemma run_film_artifact (fl : Q -> Q) (inputs : list Input) :
  forall st : State,
    filmCount (fst (run fl st inputs))
      + Z.of_nat (length (artifacts (snd (run fl st inputs))))
      = filmCount st /\
    capturedImage (fst (run fl st inputs)) =
      match last (artifacts (snd (run fl st inputs))) with
      | Some url => Some url
      | None => capturedImage st
      end /\
    (0 <= filmCount st -> 0 <= filmCount (fst (run fl st inputs))).
Proof.
  induction inputs as [|i rest IH]; intros st.
  - cbn. repeat split; auto. lia.
  - rewrite run_cons. cbn [fst snd].
    destruct (IH (fst (step fl st i))) as (A & B & C).
    rewrite artifacts_app, length_app, last_app, B.
    destruct (step_film_artifact fl st i)
      as [(E1 & E2 & E3) | (url & E1 & E2 & E3 & E4)];
      rewrite E1, ?E3; cbn [length last].
    + repeat split; [lia | | intros; apply C; lia].
      destruct (last (artifacts (snd (run fl (fst (step fl st i)) rest))));
        reflexivity.
    + repeat split; [lia | | intros; apply C; lia].
      destruct (last (artifacts (snd (run fl (fst (step fl st i)) rest))));
        reflexivity.
Qed.

(** X1. Film accounting.  Whatever the user and the browser do after the
    mount, the film left plus the number of artifacts produced so far is
    24, and the film left stays between 0 and 24. *)
Theorem film_accounting (fl : Q -> Q) (inputs : list Input) :
  let r := run fl initial inputs in
  filmCount (fst r) + Z.of_nat (length (artifacts (snd r))) = 24 /\
  0 <= filmCount (fst r) <= 24.
Proof.
  cbv zeta. destruct (run_film_artifact fl inputs initial) as (A & _ & C).
  change (filmCount initial) with 24 in *. split; [exact A|]. lia.
Qed.

Lemma held_is_last (fl : Q -> Q) (inputs : list Input) :
  capturedImage (fst (run fl initial inputs))
  = last (artifacts (snd (run fl initial inputs))).
Proof.
  destruct (run_film_artifact fl inputs initial) as (_ & B & _).
  rewrite B. destruct (last _); reflexivity.
Qed.

(** X2. One held image.  After any run from the mount the held image is
    the last artifact produced, and there is none exactly when no capture
    went through: a new capture replaces the one before. *)
Theorem held_image_is_last_artifact (fl : Q -> Q) (inputs : list Input) :
  let r := run fl initial inputs in
  capturedImage (fst r) = last (artifacts (snd r)) /\
  (capturedImage (fst r) = None <-> filmCount (fst r) = 24).
Proof.
  cbv zeta. destruct (run_film_artifact fl inputs initial) as (A & B & _).
  change (filmCount initial) with 24 in A.
  change (capturedImage initial) with (@None string) in B.
  pose proof (held_is_last fl inputs) as E.
  split; [exact E|]. rewrite E, last_None. split.
  - intros H. rewrite H in A. cbn in A. lia.
  - intros H. destruct (artifacts _); [reflexivity|]. cbn in A. lia.
Qed.

(** X3. Export after a run.  After any run from the mount, the gallery
    button downloads the last artifact produced, under the name
    [retrocam-<now>.jpg], and changes nothing; when no artifact was
    produced, or the last one is the empty string, it does nothing. *)
Theorem export_last_artifact (fl : Q -> Q) (inputs : list Input) (now : Z) :
  let r := run fl initial inputs in
  step fl (fst r) (PressGallery now) =
  (fst r,
   match last (artifacts (snd r)) with
   | Some (String c s) =>
       [EvLinkClick (String c s)
          (String.append "retrocam-" (String.append (pretty now) ".jpg"))]
   | _ => []
   end).
Proof.
  cbv zeta. pose proof (held_is_last fl inputs) as E.
  cbn [step]. unfold pressGallery, downloadPhoto. rewrite E.
  destruct (last (artifacts (snd (run fl initial inputs)))) as [[|c s]|];
    reflexivity.
Qed.

Lemma string_length_append (a b : string) :
  String.length (String.append a b) = (String.length a + String.length b)%nat.
Proof.
  induction a as [|c a IH]; [reflexivity|].
  change (String.append (String c a) b) with (String c (String.append a b)).
  cbn [String.length]. rewrite IH. reflexivity.
Qed.

Lemma append_inj_r (t : string) :
  forall a b : string, String.append a t = String.append b t -> a = b.
Proof.
  induction a as [|c a IH]; intros [|d b] H.
  - reflexivity.
  - apply (f_equal String.length) in H.
    rewrite !string_length_append in H. cbn [String.length] in H. lia.
  - apply (f_equal String.length) in H.
    rewrite !string_length_append in H. cbn [String.length] in H. lia.
  - change (String c (String.append a t) = String d (String.append b t)) in H.
    injection H as -> H. f_equal. apply IH. exact H.
Qed.

(** X4. Export names.  With an image held, the gallery button clicks one
    link to that image whose name is [retrocam-], the time in decimal and
    [.jpg]; two exports at different times get different names. *)
Theorem export_names_distinct (fl : Q -> Q) (st : State) (url : string)
    (now1 now2 : Z) :
  capturedImage st = Some url ->
  url <> EmptyString ->
  now1 <> now2 ->
  exists name1 name2 : string,
    snd (step fl st (PressGallery now1)) = [EvLinkClick url name1] /\
    snd (step fl st (PressGallery now2)) = [EvLinkClick url name2] /\
    name1 = String.append "retrocam-" (String.append (pretty now1) ".jpg") /\
    name1 <> name2.
Proof.
  intros Himg Hurl Hne. cbn [step]. unfold pressGallery, downloadPhoto.
  rewrite Himg. destruct url as [|c s]; [congruence|].
  do 2 eexists. repeat split. intros H.
  apply (inj (String.append "retrocam-")) in H.
  apply append_inj_r in H. apply (inj pretty) in H. contradiction.
Qed.

Lemma export_names_distinct_witness :
  exists name1 name2 : string,
    snd (step exact afterShot (PressGallery 1700000000000))
      = [EvLinkClick "data:image/jpeg;base64,/9j/4AAQ" name1] /\
    snd (step exact afterShot (PressGallery 1700000000001))
      = [EvLinkClick "data:image/jpeg;base64,/9j/4AAQ" name2] /\
    name1 = String.append "retrocam-"
              (String.append (pretty 1700000000000) ".jpg") /\
    name1 <> name2.
Proof.
  apply (export_names_distinct exact afterShot
           "data:image/jpeg;base64,/9j/4AAQ" 1700000000000 1700000000001).
  - vm_compute. reflexivity.
  - discriminate.
  - lia.
Defined.

(** ** The error message *)

Lemma writesWell_andThen (c1 c2 : Cmd) :
  writesWell c1 -> writesWell c2 -> writesWell (c1 >> c2).
Proof.
  intros H1 H2 st H. rewrite andThen_eq. cbn [fst]. apply H2, H1, H.
Qed.

Lemma writesWell_same (c : Cmd) :
  (forall st, cameraState (fst (c st)) = cameraState st) -> writesWell c.
Proof. intros E st H. rewrite E. exact H. Qed.

Lemma writesWell_catchError (err : Thrown) (f : State -> State) :
  writesWell (fun st => catchError err (f st)).
Proof.
  intros st _. destruct (catchError_classified err (f st)) as (msg & E & C).
  rewrite E. cbn. exists msg. split; [reflexivity | exact C].
Qed.

Lemma writesWell_readinessRejected (inv : nat) (err : Thrown) :
  writesWell (readinessRejected inv err).
Proof.
  intros st H. unfold readinessRejected.
  destruct (invocations st !! inv) as [[| | |]|]; try exact H;
    apply (writesWell_catchError err (settle inv) st H).
Qed.

Lemma writesWell_rejectEach (err : Thrown) (invs : list nat) :
  writesWell (rejectEach err invs).
Proof.
  induction invs as [|inv invs IH]; [intros st H; exact H|].
  apply writesWell_andThen; [apply writesWell_readinessRejected | exact IH].
Qed.

Lemma cameraState_capturePhoto (fl : Q -> Q) (fc : Z) (mode : FilterMode)
    (env : CaptureEnv) (st : State) :
  cameraState (fst (capturePhoto fl fc mode env st)) = cameraState st.
Proof.
  unfold capturePhoto.
  destruct (videoRef st) as [video|]; [|reflexivity].
  destruct (canvasRef st); [|reflexivity].
  destruct (fc <=? 0); [reflexivity|].
  destruct (getContext env); cbn [negb]; [|reflexivity].
  destruct ((videoWidth video =? 0)%N || (videoHeight video =? 0)%N);
    reflexivity.
Qed.

Lemma step_messageShown (fl : Q -> Q) (st : State) (i : Input) :
  messageShown (cameraState st) ->
  messageShown (cameraState (fst (step fl st i))).
Proof.
  intros H. destruct i; cbn [step].
  - destruct (startCamera_after st) as (_ & E & _). rewrite E. reflexivity.
  - destruct (stopCamera_status st) as [E _]. rewrite E. exact H.
  - unfold streamGranted.
    destruct (invocations st !! inv) as [[| | |]|]; try exact H.
    cbn. destruct (videoRef st); exact H.
  - unfold streamRefused.
    destruct (invocations st !! inv) as [[| | |]|]; try exact H.
    apply (writesWell_catchError err (settle inv) st H).
  - unfold loadedMetadata. destruct (videoRef st); exact H.
  - apply writesWell_rejectEach. exact H.
  - unfold playStarted.
    destruct (invocations st !! inv) as [[| | |]|]; try exact H.
    reflexivity.
  - unfold playRefused.
    destruct (invocations st !! inv) as [[| | |]|]; try exact H.
    apply (writesWell_catchError err (settle inv) st H).
  - unfold timerFires. destruct (timers st !! k) as [[a d]|]; [|exact H].
    destruct a as [| |inv]; try exact H.
    apply (writesWell_readinessRejected inv _
             (set_timers (delete k (timers st)) st) H).
  - unfold pressShutter. destruct (shutterDisabled st); [exact H|].
    rewrite cameraState_capturePhoto. exact H.
  - unfold pressGallery, downloadPhoto.
    destruct (capturedImage st) as [[|c s]|]; exact H.
  - exact H.
Qed.

(** X5. The error message.  After any run from the mount, status [Error]
    comes with one of the three messages of the [catch] clause, and every
    other status comes without a message. *)
Theorem error_has_message (fl : Q -> Q) (inputs : list Input) :
  let cs := cameraState (fst (run fl initial inputs)) in
  (status cs = Error -> exists msg, error cs = Some msg /\ classified msg) /\
  (status cs <> Error -> error cs = None).
Proof.
  cbv zeta.
  assert (H : messageShown (cameraState (fst (run fl initial inputs)))).
  { assert (G : forall st, messageShown (cameraState st) ->
                  messageShown (cameraState (fst (run fl st inputs)))).
    { induction inputs as [|i rest IH]; intros st Hst; [exact Hst|].
      rewrite run_cons. cbn [fst]. apply IH, step_messageShown, Hst. }
    apply G. reflexivity. }
  unfold messageShown in H.
  destruct (status (cameraState (fst (run fl initial inputs))));
    split; intros E; try congruence; exact H.
Qed.

Lemma prefix_spec (sub : string) :
  forall s : string,
    String.prefix sub s = true <-> exists b, s = String.append sub b.
Proof.
  induction sub as [|c sub IH]; intros s.
  - split; [intros _; exists s; reflexivity | intros _; destruct s; reflexivity].
  - destruct s as [|d s]; cbn [String.prefix].
    + split; [discriminate | intros [b H]; discriminate].
    + destruct (Ascii.ascii_dec c d) as [->|Hne].
      * rewrite IH. split; intros [b H]; exists b.
        -- rewrite H. reflexivity.
        -- change (String d s = String d (String.append sub b)) in H.
           injection H as H. exact H.
      * split; [discriminate|]. intros [b H].
        change (String d s = String c (String.append sub b)) in H.
        injection H as H _. congruence.
Qed.

Lemma includes_spec (sub : string) :
  forall s : string, includes s sub = true <-> contains s sub.
Proof.
  unfold contains. induction s as [|c s IH]; cbn [includes].
  - rewrite orb_false_r, prefix_spec. split.
    + intros [b H]. exists EmptyString, b. exact H.
    + intros (a & b & H). destruct a as [|d a]; [exists b; exact H|].
      discriminate.
  - rewrite orb_true_iff, prefix_spec, IH. split.
    + intros [[b H] | (a & b & H)].
      * exists EmptyString, b. exact H.
      * exists (String c a), b. rewrite H. reflexivity.
    + intros (a & b & H). destruct a as [|d a].
      * left. exists b. exact H.
      * right. exists a, b.
        change (String c s
                = String d (String.append a (String.append sub b))) in H.
        injection H as _ H. exact H.
Qed.

Lemma includes_false (s sub : string) :
  includes s sub = false <-> ~ contains s sub.
Proof.
  rewrite <- includes_spec. destruct (includes s sub); split; congruence.
Qed.

Lemma append_assoc (a b c : string) :
  String.append (String.append a b) c = String.append a (String.append b c).
Proof.
  induction a as [|x a IH]; [reflexivity|].
  change (String x (String.append (String.append a b) c)
          = String x (String.append a (String.append b c))).
  rewrite IH. reflexivity.
Qed.

(** X6. The error category is read off the message alone.  The [catch]
    clause always writes status [Error]; the message is the first one if
    the text of the error has [Permission denied] or [NotAllowedError] in
    it, else the second if it has [NotFoundError] in it, else the third
    with the text behind [Camera error: ].  A text with
    [DevicesNotFoundError] in it has [NotFoundError] in it, so that test
    never decides; a thrown value that is no [Error] reads as
    [Unknown error]. *)
Theorem error_category (err : Thrown) (st : State) :
  let m := messageOf err in
  let cs := cameraState (fst (catchError err st)) in
  status cs = Error /\
  snd (catchError err st) = [EvSetCameraState cs] /\
  (contains m "Permission denied" \/ contains m "NotAllowedError" ->
   error cs = Some PermissionDenied) /\
  (~ contains m "Permission denied" -> ~ contains m "NotAllowedError" ->
   contains m "NotFoundError" -> error cs = Some DeviceNotFound) /\
  (~ contains m "Permission denied" -> ~ contains m "NotAllowedError" ->
   ~ contains m "NotFoundError" -> error cs = Some (Other m)) /\
  (contains m "DevicesNotFoundError" -> contains m "NotFoundError").
Proof.
  cbv zeta. unfold catchError. fold (messageOf err).
  assert (Hsub : contains (messageOf err) "DevicesNotFoundError" ->
                 contains (messageOf err) "NotFoundError").
  { intros (a & b & H). exists (String.append a "Devices"), b.
    rewrite H, append_assoc. reflexivity. }
  destruct (includes (messageOf err) "Permission denied") eqn:E1;
    destruct (includes (messageOf err) "NotAllowedError") eqn:E2;
    destruct (includes (messageOf err) "NotFoundError") eqn:E3;
    destruct (includes (messageOf err) "DevicesNotFoundError") eqn:E4;
    cbn [orb fst snd setCameraState set_cameraState cameraState status error];
    rewrite ?includes_spec, ?includes_false in *;
    (split; [reflexivity|]); (split; [reflexivity|]);
    (split; [|split; [|split; [|exact Hsub]]]);
    try (intros; reflexivity); try tauto.
Qed.

(** ** After a start has settled *)

Lemma orderly_quiescent (st : State) :
  orderly st -> status (cameraState st) <> Requesting -> quiescent st.
Proof.
  intros Ho Hs i s Hi. destruct s; try reflexivity;
    exfalso; apply Hs; eapply pending_requesting; eauto.
Qed.

Lemma quiescent_readinessRejected (inv : nat) (err : Thrown) (st : State) :
  quiescent st -> readinessRejected inv err st = (st, []).
Proof.
  intros Hq. unfold readinessRejected.
  destruct (invocations st !! inv) as [s|] eqn:E; [|reflexivity].
  rewrite (Hq inv s E). reflexivity.
Qed.

Lemma quiescent_rejectEach (err : Thrown) (invs : list nat) (st : State) :
  quiescent st -> rejectEach err invs st = (st, []).
Proof.
  intros Hq. induction invs as [|inv invs IH]; [reflexivity|].
  cbn [rejectEach]. rewrite andThen_eq, quiescent_readinessRejected by exact Hq.
  cbn [fst snd]. rewrite IH. reflexivity.
Qed.

Lemma quiescent_played (st : State) :
  quiescent st -> played <$> invocations st = invocations st.
Proof.
  intros Hq. apply list_eq. intros i. rewrite list_lookup_fmap.
  destruct (invocations st !! i) as [s|] eqn:E; [|reflexivity].
  rewrite (Hq i s E). reflexivity.
Qed.

(** With no call under way, an input other than a start leaves the camera
    state and the invocations alone and writes no status. *)
Lemma quiescent_step (fl : Q -> Q) (st : State) (i : Input) :
  quiescent st -> i <> PressStart ->
  quiescent (fst (step fl st i)) /\
  cameraState (fst (step fl st i)) = cameraState st /\
  statusWrites (snd (step fl st i)) = [].
Proof.
  intros Hq Hi.
  assert (Hsame : forall c : Cmd, c st = (st, []) ->
            quiescent (fst (c st)) /\
            cameraState (fst (c st)) = cameraState st /\
            statusWrites (snd (c st)) = []).
  { intros c E. rewrite E. auto. }
  destruct i; cbn [step]; try congruence.
  - destruct (stopCamera_core st) as (_ & Ei & Ec & _).
    destruct (stopCamera_status st) as [_ Ew].
    unfold quiescent. rewrite Ei, Ec, Ew. auto.
  - apply Hsame. unfold streamGranted.
    destruct (invocations st !! inv) as [s|] eqn:E; [|reflexivity].
    rewrite (Hq inv s E). reflexivity.
  - apply Hsame. unfold streamRefused.
    destruct (invocations st !! inv) as [s|] eqn:E; [|reflexivity].
    rewrite (Hq inv s E). reflexivity.
  - unfold loadedMetadata, quiescent.
    destruct (videoRef st); cbn; rewrite (quiescent_played st Hq); auto.
  - apply Hsame. apply quiescent_rejectEach. exact Hq.
  - apply Hsame. unfold playStarted.
    destruct (invocations st !! inv) as [s|] eqn:E; [|reflexivity].
    rewrite (Hq inv s E). reflexivity.
  - apply Hsame. unfold playRefused.
    destruct (invocations st !! inv) as [s|] eqn:E; [|reflexivity].
    rewrite (Hq inv s E). reflexivity.
  - unfold timerFires. destruct (timers st !! k) as [[a d]|]; [|auto].
    destruct a as [| |inv]; cbn; auto.
    rewrite quiescent_readinessRejected by exact Hq. auto.
  - unfold pressShutter. destruct (shutterDisabled st); [auto|].
    destruct (core_capturePhoto fl (filmCount st) (selectedMode st) env st)
      as [Ec Ew].
    unfold core in Ec. injection Ec as _ _ Ei _.
    unfold quiescent. rewrite Ei, cameraState_capturePhoto, Ew. auto.
  - unfold pressGallery, downloadPhoto.
    destruct (capturedImage st) as [[|c s]|]; auto.
  - auto.
Qed.

Lemma quiescent_run (fl : Q -> Q) (inputs : list Input) :
  forall st : State,
    quiescent st -> noStart inputs ->
    cameraState (fst (run fl st inputs)) = cameraState st /\
    statusWrites (snd (run fl st inputs)) = [].
Proof.
  induction inputs as [|i rest IH]; intros st Hq Hn; [auto|].
  inversion Hn as [|? ? Hi Hrest]; subst.
  destruct (quiescent_step fl st i Hq Hi) as (Q1 & E1 & W1).
  destruct (IH _ Q1 Hrest) as (E2 & W2).
  rewrite run_cons. cbn [fst snd]. rewrite statusWrites_app, W1, W2, E2, E1.
  auto.
Qed.

Lemma reachableInTurn_run (fl : Q -> Q) (inputs : list Input) :
  forall st : State,
    reachableInTurn fl st -> allInTurn fl st inputs ->
    reachableInTurn fl (fst (run fl st inputs)).
Proof.
  induction inputs as [|i rest IH]; intros st Hr Hall; [exact Hr|].
  destruct Hall as [Hi Hrest]. rewrite run_cons. cbn [fst].
  apply IH; [|exact Hrest]. constructor; assumption.
Qed.

Lemma playing_in_turn : reachableInTurn exact playing.
Proof.
  apply reachableInTurn_run; [constructor|].
  cbn [allInTurn]. repeat split; discriminate.
Qed.

(** X7. A settled start stays settled.  In a run with one start at a
    time, once the status is [Idle], [Active] or [Error] only another
    start changes the camera state: the time-out that was never cleared,
    late events of the video or of [play()], captures, exports, mode
    changes and the clean-up write nothing to it. *)
Theorem settled_status_stays (fl : Q -> Q) (st : State)
    (inputs : list Input) :
  reachableInTurn fl st ->
  status (cameraState st) <> Requesting ->
  noStart inputs ->
  cameraState (fst (run fl st inputs)) = cameraState st /\
  statusWrites (snd (run fl st inputs)) = [].
Proof.
  intros Hr Hs Hn. apply quiescent_run; [|exact Hn].
  apply orderly_quiescent; [|exact Hs]. apply (in_turn_orderly fl). exact Hr.
Qed.

Lemma settled_status_stays_witness :
  cameraState
    (fst (run exact playing
            [TimerFires 0; VideoFailed; PlayRefused 0 timedOut;
             PressShutter sampleEnv; CallStop]))
  = mkCameraState Active None.
Proof.
  refine (proj1 (settled_status_stays exact playing _ playing_in_turn _ _)).
  - discriminate.
  - repeat constructor; discriminate.
Defined.

(** ** Live handles *)

Lemma filter_none (f : nat -> bool) (l : list nat) :
  (forall x, f x = false) -> List.filter f l = [].
Proof.
  intros H. induction l as [|x l IH]; [reflexivity|].
  cbn. rewrite H. exact IH.
Qed.

(** X9. One camera at a time.  In a run with one start at a time at most
    one stream is live at any moment, it is the one held in [streamRef],
    and after the clean-up none is. *)
Theorem one_live_in_turn (fl : Q -> Q) (st : State) :
  reachableInTurn fl st ->
  (length (liveHandles st) <= 1)%nat /\
  (forall h : nat, liveStream st h = true -> streamRef st = Some h) /\
  liveHandles (fst (stopCamera st)) = [].
Proof.
  intros Hr. destruct (in_turn_one_live fl st Hr) as [H1 H2].
  split; [exact H2|]. split; [exact H1|].
  apply filter_none.
  apply orderly_stopCamera, (in_turn_orderly fl). exact Hr.
Qed.

Lemma one_live_in_turn_witness :
  (length (liveHandles playing) <= 1)%nat /\
  liveHandles (fst (stopCamera playing)) = [].
Proof.
  destruct (one_live_in_turn exact playing playing_in_turn) as (A & _ & C).
  exact (conj A C).
Defined.

(** X10. The status machine.  In a run from the mount with one start at a
    time, every write of [Active] or [Error] finds the status at
    [Requesting]. *)
Theorem no_skip_in_turn (fl : Q -> Q) (inputs : list Input) :
  allInTurn fl initial inputs ->
  noSkip Idle (statusWrites (snd (run fl initial inputs))).
Proof.
  intros Hall.
  destruct (in_turn_no_skip fl inputs initial orderly_initial Hall)
    as (_ & N & _).
  exact N.
Qed.

Lemma no_skip_in_turn_witness :
  noSkip Idle
    (statusWrites
       (snd (run exact initial
               [PressStart; StreamRefused 0 notReadable; PressStart;
                StreamGranted 1 1; LoadedMetadata 1280 720; PlayStarted 1]))).
Proof.
  apply no_skip_in_turn. cbn [allInTurn]. repeat split; try discriminate.
  intros _ [|i] s H; vm_compute in H; congruence.
Defined.

(** ** Calls of [track.stop()] *)

Lemma stopped_app (e1 e2 : list Event) :
  stopped (e1 ++ e2) = stopped e1 ++ stopped e2.
Proof.
  induction e1 as [|e e1 IH]; [reflexivity|].
  destruct e; cbn; rewrite IH; reflexivity.
Qed.

Lemma stopped_trackStops (h : nat) (l : list nat) :
  forall x, In x (stopped (map (EvTrackStop h) l)) -> x = h.
Proof.
  induction l as [|k l IH]; cbn; intros x H;
    [destruct H | destruct H as [H | H]; auto].
Qed.

Lemma noStops_andThen (c1 c2 : Cmd) :
  noStops c1 -> noStops c2 -> noStops (c1 >> c2).
Proof.
  intros H1 H2 st. rewrite andThen_eq. cbn [snd].
  rewrite stopped_app, H1, H2. reflexivity.
Qed.

Lemma noStops_catchError (err : Thrown) (f : State -> State) :
  noStops (fun st => catchError err (f st)).
Proof.
  intros st. destruct (catchError_classified err (f st)) as (msg & E & _).
  rewrite E. reflexivity.
Qed.

Lemma noStops_readinessRejected (inv : nat) (err : Thrown) :
  noStops (readinessRejected inv err).
Proof.
  intros st. unfold readinessRejected.
  destruct (invocations st !! inv) as [[| | |]|]; try reflexivity;
    apply (noStops_catchError err (settle inv)).
Qed.

Lemma noStops_rejectEach (err : Thrown) (invs : list nat) :
  noStops (rejectEach err invs).
Proof.
  induction invs as [|inv invs IH]; [intros st; reflexivity|].
  apply noStops_andThen; [apply noStops_readinessRejected | exact IH].
Qed.

Lemma stopped_stopCamera (st : State) :
  forall h, In h (stopped (snd (stopCamera st))) -> streamRef st = Some h.
Proof.
  intros h. rewrite stopCamera_eq. cbn [snd].
  destruct (streamRef st) as [h0|]; [|intros []].
  destruct (streams st !! h0); [|intros []].
  intros H. apply stopped_trackStops in H. congruence.
Qed.

(** [track.stop()] is called on tracks of the held stream only. *)
Lemma step_stopped (fl : Q -> Q) (st : State) (i : Input) :
  forall h, In h (stopped (snd (step fl st i))) -> streamRef st = Some h.
Proof.
  assert (K : forall c : Cmd, noStops c ->
            forall h, In h (stopped (snd (c st))) -> streamRef st = Some h).
  { intros c Hc h. rewrite Hc. intros []. }
  destruct i; cbn [step].
  - intros h. rewrite startCamera_eq. cbn [snd stopped].
    rewrite stopped_app. cbn [stopped]. rewrite app_nil_r.
    apply (stopped_stopCamera (set_cameraState _ st)).
  - apply stopped_stopCamera.
  - apply K. intros s. unfold streamGranted.
    destruct (invocations s !! inv) as [[| | |]|]; try reflexivity.
    cbn. destruct (videoRef s); reflexivity.
  - apply K. intros s. unfold streamRefused.
    destruct (invocations s !! inv) as [[| | |]|]; try reflexivity.
    apply (noStops_catchError err (settle inv)).
  - apply K. intros s. reflexivity.
  - apply K. intros s. apply noStops_rejectEach.
  - apply K. intros s. unfold playStarted.
    destruct (invocations s !! inv) as [[| | |]|]; reflexivity.
  - apply K. intros s. unfold playRefused.
    destruct (invocations s !! inv) as [[| | |]|]; try reflexivity.
    apply (noStops_catchError err (settle inv)).
  - apply K. intros s. unfold timerFires.
    destruct (timers s !! k) as [[a d]|]; [|reflexivity].
    destruct a as [| |inv]; try reflexivity.
    apply noStops_readinessRejected.
  - apply K. intros s. unfold pressShutter.
    destruct (shutterDisabled s); [reflexivity|]. unfold capturePhoto.
    destruct (videoRef s) as [video|]; [|reflexivity].
    destruct (canvasRef s); [|reflexivity].
    destruct (filmCount s <=? 0); [reflexivity|].
    destruct (getContext env); cbn [negb]; [|reflexivity].
    destruct ((videoWidth video =? 0)%N || (videoHeight video =? 0)%N);
      reflexivity.
  - apply K. intros s. unfold pressGallery, downloadPhoto.
    destruct (capturedImage s) as [[|c x]|]; reflexivity.
  - apply K. intros s. reflexivity.
Qed.

Lemma orphan_run (fl : Q -> Q) (inputs : list Input) :
  forall (st : State) (h : nat),
    orphan st h ->
    streams (fst (run fl st inputs)) !! h = streams st !! h /\
    streamRef (fst (run fl st inputs)) <> Some h /\
    ~ In h (stopped (snd (run fl st inputs))).
Proof.
  induction inputs as [|i rest IH]; intros st h Ho.
  - cbn. destruct Ho as [_ Hne]. auto.
  - rewrite run_cons. cbn [fst snd].
    destruct (orphan_step fl st i h Ho) as [E O1].
    destruct (IH _ h O1) as (E2 & N2 & S2).
    rewrite E2, E. split; [reflexivity|]. split; [exact N2|].
    rewrite stopped_app, in_app_iff. intros [H | H]; [|exact (S2 H)].
    apply step_stopped in H. destruct Ho as [_ Hne]. contradiction.
Qed.

(** X21. Streams out of reach.  [track.stop()] is only ever called on
    tracks of the stream held in [streamRef], and a granted stream gets a
    new handle: a stream that is in the store but not in [streamRef] keeps
    its tracks as they are, is never held again and is never stopped,
    whatever happens next. *)
Theorem unheld_stream_is_never_stopped (fl : Q -> Q) (st : State) (h : nat)
    (inputs : list Input) :
  (h < length (streams st))%nat ->
  streamRef st <> Some h ->
  streams (fst (run fl st inputs)) !! h = streams st !! h /\
  streamRef (fst (run fl st inputs)) <> Some h /\
  ~ In h (stopped (snd (run fl st inputs))).
Proof. intros Hlt Hne. apply orphan_run. split; assumption. Qed.

Lemma unheld_stream_is_never_stopped_witness :
  streams (fst (run exact twoStreams [PressStart; CallStop; PressStart]))
    !! 0%nat = Some [Live].
Proof.
  refine (eq_trans (proj1 (unheld_stream_is_never_stopped exact twoStreams
            0 [PressStart; CallStop; PressStart] _ _)) _).
  - vm_compute. lia.
  - vm_compute. discriminate.
  - vm_compute. reflexivity.
Defined.

Lemma fmap_ended (tracks : list TrackState) :
  Forall (fun t => t = Ended) ((fun _ => Ended) <$> tracks).
Proof. induction tracks; constructor; auto. Qed.

(** X8. Release.  With a stream held, [stopCamera] calls [stop()] once
    on each of its tracks, in order, and leaves all of them ended; it
    touches the tracks of no other stream; it empties [streamRef] and the
    [srcObject] of the video. *)
Theorem stop_releases_held (st : State) (h : nat) (tracks : list TrackState) :
  streamRef st = Some h ->
  streams st !! h = Some tracks ->
  let r := stopCamera st in
  snd r = map (EvTrackStop h) (seq 0 (length tracks)) /\
  (exists tracks' : list TrackState,
     streams (fst r) !! h = Some tracks' /\
     length tracks' = length tracks /\
     Forall (fun t => t = Ended) tracks') /\
  liveStream (fst r) h = false /\
  (forall h' : nat, h' <> h -> streams (fst r) !! h' = streams st !! h') /\
  streamRef (fst r) = None /\
  (srcObject <$> videoRef (fst r)) = ((fun _ => None) <$> videoRef st).
Proof.
  intros Hs Hh. cbv zeta.
  destruct (stopCamera_core st) as (Es & _ & _ & Et).
  destruct (stopCamera_rest st) as (Ev & _ & _).
  rewrite Hs, Hh in Et.
  assert (Hlt : (h < length (streams st))%nat)
    by (eapply lookup_lt_Some; eauto).
  split; [rewrite stopCamera_eq; cbn [snd]; rewrite Hs, Hh; reflexivity|].
  split; [|split; [|split; [|split]]].
  - exists ((fun _ => Ended) <$> tracks). rewrite Et.
    rewrite list_lookup_insert_eq by exact Hlt.
    split; [reflexivity|]. split; [apply length_fmap | apply fmap_ended].
  - unfold liveStream. rewrite Et, list_lookup_insert_eq by exact Hlt.
    apply liveStream_ended.
  - intros h' Hne. rewrite Et. apply list_lookup_insert_ne. congruence.
  - exact Es.
  - rewrite Ev. destruct (videoRef st); reflexivity.
Qed.

Lemma stop_releases_held_witness :
  snd (stopCamera playing) = [EvTrackStop 0 0] /\
  liveStream (fst (stopCamera playing)) 0 = false.
Proof.
  destruct (stop_releases_held playing 0 [Live] eq_refl eq_refl)
    as (A & _ & C & _).
  exact (conj A C).
Defined.

(** ** Switching the camera *)

Lemma liveStream_media (st st' : State) (h : nat) :
  media st' = media st -> liveStream st' h = liveStream st h.
Proof.
  unfold media, liveStream. intros E. injection E as _ E _.
  rewrite E. reflexivity.
Qed.

(** X12. A switch that is refused.  The held stream is released before
    the request goes out; if the request is then rejected the status is
    [Error] with one of the three messages, no stream is held and the one
    held before is no longer live. *)
Theorem refused_switch_loses_stream (fl : Q -> Q) (st : State) (h : nat)
    (err : Thrown) :
  streamRef st = Some h ->
  let r := run fl st [PressStart; StreamRefused (length (invocations st)) err] in
  status (cameraState (fst r)) = Error /\
  (exists msg : string,
     error (cameraState (fst r)) = Some msg /\ classified msg) /\
  streamRef (fst r) = None /\
  liveStream (fst r) h = false.
Proof.
  intros Hs. cbv zeta.
  destruct (start_refused_no_handle fl st err) as (A & B & C & _).
  split; [exact A|]. split; [exact B|]. split; [exact C|].
  rewrite !run_cons. cbn [fst run step].
  rewrite (liveStream_media (fst (startCamera st))).
  - apply (startCamera_released st h Hs).
  - apply (keeps_streamRefused media); reflexivity.
Qed.

Lemma refused_switch_loses_stream_witness :
  liveHandles
    (fst (run exact playing [PressStart; StreamRefused 1 notReadable])) = [] /\
  liveStream
    (fst (run exact playing [PressStart; StreamRefused 1 notReadable])) 0
  = false.
Proof.
  split; [vm_compute; reflexivity|].
  exact (proj2 (proj2 (proj2
    (refused_switch_loses_stream exact playing 0 notReadable eq_refl)))).
Defined.

Lemma existsb_live (n : nat) :
  (0 < n)%nat -> existsb isLive (replicate n Live) = true.
Proof. destruct n; [lia | reflexivity]. Qed.

(** X11. A switch that succeeds.  With the video mounted and a stream
    held, a start that is granted a stream of at least one track and
    reaches playback ends [Active] with the new stream stored, bound to
    the video and live, the stream held before no longer live, and the
    status written twice: [Requesting], then [Active]. *)
Theorem switch_replaces_stream (fl : Q -> Q) (st : State) (video : Video)
    (old n : nat) (w h : N) :
  videoRef st = Some video ->
  streamRef st = Some old ->
  (old < length (streams st))%nat ->
  (0 < n)%nat ->
  let inv := length (invocations st) in
  let new := length (streams st) in
  let r :=
    run fl st
      [PressStart; StreamGranted inv n; LoadedMetadata w h; PlayStarted inv] in
  cameraState (fst r) = mkCameraState Active None /\
  streamRef (fst r) = Some new /\
  videoRef (fst r) = Some (mkVideo (Some new) w h) /\
  liveStream (fst r) new = true /\
  liveStream (fst r) old = false /\
  statusWrites (snd r) = [Requesting; Active].
Proof.
  intros Hv Hs Hlt Hn. cbv zeta.
  destruct (start_success fl st video n w h Hv) as (A & B & C & D & E).
  split; [exact A|]. split; [exact B|]. split; [exact D|].
  split; [|split; [|exact E]].
  - unfold liveStream. rewrite C. apply existsb_live. exact Hn.
  - rewrite run_cons. cbn [fst].
    destruct (startCamera_after st) as (Es & _ & _ & _ & _ & El).
    destruct (orphan_forever fl
                [StreamGranted (length (invocations st)) n;
                 LoadedMetadata w h; PlayStarted (length (invocations st))]
                (fst (step fl st PressStart)) old) as [L _].
    + split; cbn [step]; [rewrite El; exact Hlt | rewrite Es; discriminate].
    + rewrite L. apply (startCamera_released st old Hs).
Qed.

Lemma switch_replaces_stream_witness :
  liveHandles
    (fst (run exact playing
            [PressStart; StreamGranted 1 1; LoadedMetadata 640 480;
             PlayStarted 1])) = [1%nat] /\
  cameraState
    (fst (run exact playing
            [PressStart; StreamGranted 1 1; LoadedMetadata 640 480;
             PlayStarted 1])) = mkCameraState Active None.
Proof.
  split; [vm_compute; reflexivity|].
  refine (proj1 (switch_replaces_stream exact playing
            (mkVideo (Some 0%nat) 1280 720) 0 1 640 480 eq_refl eq_refl _ _)).
  - vm_compute. lia.
  - lia.
Defined.

(** ** The signals of a capture *)

Lemma State_ext (a b : State) :
  cameraState a = cameraState b ->
  selectedMode a = selectedMode b ->
  filmCount a = filmCount b ->
  isCapturing a = isCapturing b ->
  capturedImage a = capturedImage b ->
  showFlash a = showFlash b ->
  videoRef a = videoRef b ->
  canvasRef a = canvasRef b ->
  streamRef a = streamRef b ->
  streams a = streams b ->
  invocations a = invocations b ->
  timers a = timers b ->
  a = b.
Proof. destruct a, b; cbn; intros; subst; reflexivity. Qed.

Lemma fire_flash (st : State) (l l2 : list Timer) (d : Z) :
  timers st = l ++ mkTimer FlashOff d :: l2 ->
  timerFires (length l) st =
  (set_showFlash false (set_timers (l ++ l2) st), []).
Proof.
  intros H. unfold timerFires. rewrite H.
  rewrite (list_lookup_middle l l2 _ (length l) eq_refl), delete_middle.
  reflexivity.
Qed.

Lemma fire_capturing (st : State) (l l2 : list Timer) (d : Z) :
  timers st = l ++ mkTimer CapturingOff d :: l2 ->
  timerFires (length l) st =
  (set_isCapturing false (set_timers (l ++ l2) st), []).
Proof.
  intros H. unfold timerFires. rewrite H.
  rewrite (list_lookup_middle l l2 _ (length l) eq_refl), delete_middle.
  reflexivity.
Qed.

(** X13. Flash and capturing signals.  A capture that goes through raises
    both signals and arms two timers, of 150 ms for the flash and 300 ms
    for the capturing signal; once these two have fired both signals are
    down and no timer of the capture is left: what remains of the capture
    is the artifact, one unit of film less and the canvas at the size of
    the video. *)
Theorem capture_signals_return (fl : Q -> Q) (st : State) (env : CaptureEnv)
    (video : Video) (canvas : Canvas) :
  status (cameraState st) = Active ->
  0 < filmCount st ->
  videoRef st = Some video ->
  canvasRef st = Some canvas ->
  getContext env = true ->
  videoWidth video <> 0%N ->
  videoHeight video <> 0%N ->
  let w := videoWidth video in
  let h := videoHeight video in
  let dataUrl :=
    toDataURL env w h
      (addGrain fl (random env) 0
         (getImageData env (filterStyles (selectedMode st)) w h)) in
  let s1 := fst (step fl st (PressShutter env)) in
  let k := length (timers st) in
  let s3 := fst (run fl s1 [TimerFires k; TimerFires k]) in
  isCapturing s1 = true /\ showFlash s1 = true /\
  timers s1 = timers st ++ [mkTimer FlashOff 150; mkTimer CapturingOff 300] /\
  s3 = set_filmCount (filmCount st - 1)
         (set_capturedImage (Some dataUrl)
            (set_canvasRef (Some (mkCanvas w h))
               (set_showFlash false (set_isCapturing false st)))).
Proof.
  intros Hact Hfc Hv Hc Hctx Hw Hh. cbv zeta.
  assert (E1 : step fl st (PressShutter env) =
               capturePhoto fl (filmCount st) (selectedMode st) env st).
  { cbn [step]. unfold pressShutter, shutterDisabled. rewrite Hact.
    destruct (filmCount st <=? 0) eqn:E; [apply Z.leb_le in E; lia|].
    reflexivity. }
  rewrite E1,
    (capturePhoto_success fl (filmCount st) (selectedMode st) env st
       video canvas Hv Hc Hfc Hctx Hw Hh).
  generalize (toDataURL env (videoWidth video) (videoHeight video)
                (addGrain fl (random env) 0
                   (getImageData env (filterStyles (selectedMode st))
                      (videoWidth video) (videoHeight video)))).
  intros url. cbn [fst].
  set (s1 := setTimeout CapturingOff 300 _).
  assert (T1 : timers s1 =
               timers st ++ mkTimer FlashOff 150 :: [mkTimer CapturingOff 300]).
  { change (timers s1)
      with ((timers st ++ [mkTimer FlashOff 150])
            ++ [mkTimer CapturingOff 300]).
    rewrite <- app_assoc. reflexivity. }
  split; [reflexivity|]. split; [reflexivity|]. split; [exact T1|].
  rewrite !run_cons. cbn [fst run step].
  rewrite (fire_flash s1 _ _ _ T1). cbn [fst].
  set (s2 := set_showFlash false _).
  assert (T2 : timers s2 = timers st ++ mkTimer CapturingOff 300 :: []).
  { reflexivity. }
  rewrite (fire_capturing s2 _ _ _ T2). cbn [fst].
  rewrite app_nil_r. apply State_ext; reflexivity.
Qed.

Lemma capture_signals_return_witness :
  isCapturing (fst (step exact playing (PressShutter sampleEnv))) = true /\
  showFlash (fst (step exact playing (PressShutter sampleEnv))) = true.
Proof.
  destruct (capture_signals_return exact playing sampleEnv
              (mkVideo (Some 0%nat) 1280 720) (mkCanvas 300 150)
              ltac:(vm_compute; reflexivity) ltac:(vm_compute; reflexivity)
              ltac:(vm_compute; reflexivity) ltac:(vm_compute; reflexivity)
              ltac:(vm_compute; reflexivity)
              ltac:(discriminate) ltac:(discriminate)) as (A & B & _).
  exact (conj A B).
Defined.

(** ** The stream behind a live viewfinder *)

Lemma attached_initial : attached initial.
Proof.
  constructor; cbn.
  - eauto.
  - intros video H. injection H as <-. reflexivity.
  - discriminate.
  - intros i s H. discriminate.
  - discriminate.
Qed.

(** The invariant reads the media, the invocations and the status. *)
Lemma attached_same (st st' : State) :
  media st' = media st ->
  invocations st' = invocations st ->
  status (cameraState st') = status (cameraState st) ->
  attached st -> attached st'.
Proof.
  unfold media. intros Em Ei Es [H1 H2 H3 H4 H5].
  injection Em as E1 E2 E3.
  constructor; rewrite ?E1, ?E2, ?E3, ?Ei, ?Es; assumption.
Qed.

(** An invocation settles and the status is written. *)
Lemma attached_settle (st : State) (inv : nat) (s : Stage)
    (cs : CameraState) :
  attached st ->
  invocations st !! inv = Some s ->
  (status cs = Active -> s = AwaitingPlay) ->
  attached (set_cameraState cs (settle inv st)).
Proof.
  intros [H1 H2 H3 H4 H5] Hinv Hcs.
  assert (Hlt : (inv < length (invocations st))%nat)
    by (eapply lookup_lt_Some; eauto).
  constructor; cbn.
  - exact H1.
  - exact H2.
  - intros Ha. eapply H4; [exact Hinv|]. right. apply Hcs. exact Ha.
  - intros i s' Hi Hs'. destruct (decide (inv = i)) as [->|Hne].
    + rewrite list_lookup_insert_eq in Hi by exact Hlt.
      injection Hi as <-. destruct Hs'; discriminate.
    + rewrite list_lookup_insert_ne in Hi by exact Hne. eapply H4; eauto.
  - exact H5.
Qed.

Lemma keepsAttached_andThen (c1 c2 : Cmd) :
  keepsAttached c1 -> keepsAttached c2 -> keepsAttached (c1 >> c2).
Proof.
  intros K1 K2 st H. rewrite andThen_eq. cbn [fst]. apply K2, K1, H.
Qed.

Lemma attached_catchError (st : State) (inv : nat) (s : Stage)
    (err : Thrown) :
  attached st -> invocations st !! inv = Some s ->
  attached (fst (catchError err (settle inv st))).
Proof.
  intros H Hinv.
  destruct (catchError_classified err (settle inv st)) as (msg & E & _).
  rewrite E. cbn [fst].
  apply (attached_settle st inv s _ H Hinv). discriminate.
Qed.

Lemma keepsAttached_readinessRejected (inv : nat) (err : Thrown) :
  keepsAttached (readinessRejected inv err).
Proof.
  intros st H. unfold readinessRejected.
  destruct (invocations st !! inv) as [s|] eqn:E; [|exact H].
  destruct s; try exact H; eapply attached_catchError; eauto.
Qed.

Lemma keepsAttached_rejectEach (err : Thrown) (invs : list nat) :
  keepsAttached (rejectEach err invs).
Proof.
  induction invs as [|inv invs IH]; [intros st H; exact H|].
  apply keepsAttached_andThen;
    [apply keepsAttached_readinessRejected | exact IH].
Qed.

Lemma attached_startCamera (st : State) :
  attached st -> quiescent st -> attached (fst (startCamera st)).
Proof.
  intros [H1 H2 H3 H4 H5] Hq.
  destruct (startCamera_after st) as (Es & Ec & Ei & Ev & _ & _).
  constructor.
  - rewrite Ev. destruct H1 as [video ->]. cbn. eauto.
  - intros video. rewrite Ev, Es. destruct (videoRef st) as [v|]; cbn;
      [|discriminate]. intros E. injection E as <-. reflexivity.
  - rewrite Ec. discriminate.
  - intros i s. rewrite Ei. intros Hi Hs.
    destruct (decide (i < length (invocations st))%nat) as [Hlt|Hge].
    + rewrite lookup_app_l in Hi by exact Hlt.
      rewrite (Hq i s Hi) in Hs. destruct Hs; discriminate.
    + assert (i = length (invocations st)).
      { apply lookup_lt_Some in Hi. rewrite length_app in Hi. cbn in Hi. lia. }
      subst i. rewrite list_lookup_middle in Hi by reflexivity.
      injection Hi as <-. destruct Hs; discriminate.
  - rewrite Es. discriminate.
Qed.

Lemma forall_live (n : nat) : Forall (fun t => t = Live) (replicate n Live).
Proof. induction n; constructor; auto. Qed.

Lemma keepsAttached_streamGranted (inv n : nat) :
  keepsAttached (streamGranted inv (replicate n Live)).
Proof.
  intros st H. unfold streamGranted.
  destruct (invocations st !! inv) as [s|] eqn:Hinv; [|exact H].
  destruct s; try exact H.
  destruct H as [H1 H2 H3 H4 H5]. destruct H1 as [video Hv].
  cbn [videoRef set_streamRef set_streams]. rewrite Hv.
  cbn [fst]. constructor; cbn.
  - eauto.
  - intros v E. injection E as <-. reflexivity.
  - eauto.
  - eauto.
  - intros h E. injection E as <-. exists (replicate n Live).
    split; [apply list_lookup_middle; reflexivity | apply forall_live].
Qed.

Lemma keepsAttached_loadedMetadata (w h : N) :
  keepsAttached (loadedMetadata w h).
Proof.
  intros st [H1 H2 H3 H4 H5]. unfold loadedMetadata.
  destruct H1 as [video Hv]. rewrite Hv. cbn [fst].
  constructor; cbn.
  - eauto.
  - intros v E. injection E as <-. cbn. apply H2. exact Hv.
  - exact H3.
  - intros i s Hi Hs. rewrite list_lookup_fmap in Hi.
    destruct (invocations st !! i) as [s0|] eqn:E; [|discriminate].
    injection Hi as <-. apply (H4 i s0 E).
    destruct s0; cbn in Hs; destruct Hs; try discriminate; auto.
  - exact H5.
Qed.

Lemma attached_step (fl : Q -> Q) (st : State) (i : Input) :
  attached st -> inTurn st i -> i <> CallStop ->
  attached (fst (step fl st i)).
Proof.
  intros H Hturn Hstop. destruct i; cbn [step]; try congruence.
  - apply attached_startCamera; [exact H | apply Hturn; reflexivity].
  - apply keepsAttached_streamGranted. exact H.
  - unfold streamRefused.
    destruct (invocations st !! inv) as [s|] eqn:E; [|exact H].
    destruct s; try exact H. eapply attached_catchError; eauto.
  - apply keepsAttached_loadedMetadata. exact H.
  - apply keepsAttached_rejectEach. exact H.
  - unfold playStarted.
    destruct (invocations st !! inv) as [s|] eqn:E; [|exact H].
    destruct s; try exact H. cbn [fst setCameraState].
    eapply attached_settle; eauto.
  - unfold playRefused.
    destruct (invocations st !! inv) as [s|] eqn:E; [|exact H].
    destruct s; try exact H. eapply attached_catchError; eauto.
  - unfold timerFires. destruct (timers st !! k) as [[a d]|]; [|exact H].
    assert (H' : attached (set_timers (delete k (timers st)) st))
      by (apply (attached_same st); [reflexivity.. | exact H]).
    destruct a as [| |inv]; cbn [action runTimer quiet fst].
    + apply (attached_same st); [reflexivity.. | exact H].
    + apply (attached_same st); [reflexivity.. | exact H].
    + apply keepsAttached_readinessRejected. exact H'.
  - unfold pressShutter. destruct (shutterDisabled st); [exact H|].
    destruct (core_capturePhoto fl (filmCount st) (selectedMode st) env st)
      as [Ec _].
    unfold core in Ec. injection Ec as _ _ Ei Es.
    apply (attached_same st); [apply keepsMedia_capturePhoto | | | exact H];
      assumption.
  - unfold pressGallery, downloadPhoto.
    destruct (capturedImage st) as [[|c s]|]; exact H.
  - apply (attached_same st); [reflexivity.. | exact H].
Qed.

Lemma attached_run (fl : Q -> Q) (inputs : list Input) :
  forall st : State,
    attached st -> allInTurn fl st inputs -> noStop inputs ->
    attached (fst (run fl st inputs)).
Proof.
  induction inputs as [|i rest IH]; intros st H Hall Hn; [exact H|].
  destruct Hall as [Hturn Hrest]. inversion Hn as [|? ? Hi Hr]; subst.
  rewrite run_cons. cbn [fst]. apply IH; [|exact Hrest | exact Hr].
  apply attached_step; assumption.
Qed.

(** X20. A live viewfinder has a stream.  In a run from the mount with
    one start at a time and no clean-up, whenever the status is [Active] a
    stream is held, the video shows it, and all its tracks are live. *)
Theorem live_view_has_stream (fl : Q -> Q) (inputs : list Input) :
  allInTurn fl initial inputs ->
  noStop inputs ->
  let st := fst (run fl initial inputs) in
  status (cameraState st) = Active ->
  exists (h : nat) (tracks : list TrackState),
    streamRef st = Some h /\
    (srcObject <$> videoRef st) = Some (Some h) /\
    streams st !! h = Some tracks /\
    Forall (fun t => t = Live) tracks.
Proof.
  intros Hall Hn st Hact.
  destruct (attached_run fl inputs initial attached_initial Hall Hn)
    as [H1 H2 H3 H4 H5].
  fold st in H1, H2, H3, H4, H5.
  destruct (H3 Hact) as [h Hh]. destruct (H5 h Hh) as (tracks & Ht & Hl).
  destruct H1 as [video Hv].
  exists h, tracks. repeat split; try assumption.
  rewrite Hv. cbn. rewrite (H2 video Hv), Hh. reflexivity.
Qed.

Lemma live_view_has_stream_witness :
  exists (h : nat) (tracks : list TrackState),
    streamRef playing = Some h /\
    (srcObject <$> videoRef playing) = Some (Some h) /\
    streams playing !! h = Some tracks /\
    Forall (fun t => t = Live) tracks.
Proof.
  apply (live_view_has_stream exact
           [PressStart; StreamGranted 0 1; LoadedMetadata 1280 720;
            PlayStarted 0]).
  - cbn [allInTurn]. repeat split; discriminate.
  - repeat constructor; discriminate.
  - vm_compute. reflexivity.
Defined.

(** ** What is rendered *)

(** X18. The film counter.  After any run from the mount the counter
    shows exactly two decimal digits, the tens and the units of the film
    left. *)
Theorem counter_shows_two_digits (fl : Q -> Q) (inputs : list Input) :
  let st := fst (run fl initial inputs) in
  filmCounter (render st) =
  String (digit (filmCount st / 10))
    (String (digit (filmCount st mod 10)) EmptyString).
Proof.
  cbv zeta. destruct (run_film_artifact fl inputs initial) as (A & _ & C).
  change (filmCount initial) with 24 in *.
  set (n := filmCount (fst (run fl initial inputs))) in *.
  assert (Hn : 0 <= n <= 24) by lia.
  change (filmCounter (render (fst (run fl initial inputs))))
    with (padStart 2 "0" (pretty n)).
  clearbody n. clear A C.
  assert (Hk : forall k : nat, (k <= 24)%nat ->
            padStart 2 "0" (pretty (Z.of_nat k)) =
            String (digit (Z.of_nat k / 10))
              (String (digit (Z.of_nat k mod 10)) EmptyString)).
  { intros k Hle.
    do 25 (destruct k as [|k]; [vm_compute; reflexivity|]). lia. }
  rewrite <- (Z2Nat.id n) by lia. apply Hk. lia.
Qed.

(** X19. One panel, one mode.  In every state exactly one of the start
    panel, the requesting panel, the error panel and the video is shown,
    the overlay of the viewfinder goes with the video, and exactly one
    mode button is highlighted, the one of the selected mode. *)
Theorem one_panel_one_mode (st : State) :
  let v := render st in
  length
    (List.filter (fun b : bool => b)
       [startPanel v; requestingPanel v;
        match errorPanel v with Some _ => true | None => false end;
        negb (videoHidden v)]) = 1%nat /\
  viewfinderOverlay v = negb (videoHidden v) /\
  List.filter snd (modeButtons v) = [(selectedMode st, true)] /\
  map fst (modeButtons v) = modes.
Proof.
  cbv zeta. unfold render. cbn.
  destruct (status (cameraState st)), (selectedMode st); cbn; auto.
Qed.

(** X14. The still is drawn under the filter of the preview.  After a
    mode is selected the preview shows the video under the filter of that
    mode, and a capture that goes through encodes the frame drawn under
    that same filter, at the size of the video, with grain. *)
Theorem still_uses_preview_filter (fl : Q -> Q) (st : State)
    (m : FilterMode) (env : CaptureEnv) (video : Video) (canvas : Canvas) :
  status (cameraState st) = Active ->
  0 < filmCount st ->
  videoRef st = Some video ->
  canvasRef st = Some canvas ->
  getContext env = true ->
  videoWidth video <> 0%N ->
  videoHeight video <> 0%N ->
  let s1 := fst (step fl st (PressMode m)) in
  let w := videoWidth video in
  let h := videoHeight video in
  videoFilter (render s1) = filterStyles m /\
  snd (step fl s1 (PressShutter env)) =
    [EvSetCapturedImage
       (toDataURL env w h
          (addGrain fl (random env) 0
             (getImageData env (videoFilter (render s1)) w h)))] /\
  canvasRef (fst (step fl s1 (PressShutter env))) = Some (mkCanvas w h).
Proof.
  intros Hact Hfc Hv Hc Hctx Hw Hh. cbv zeta.
  split; [reflexivity|].
  cbn [step quiet fst]. unfold pressShutter, shutterDisabled.
  cbn [cameraState filmCount selectedMode set_selectedMode].
  rewrite Hact.
  destruct (filmCount st <=? 0) eqn:E; [apply Z.leb_le in E; lia|].
  rewrite (capturePhoto_success fl (filmCount st) m env
             (set_selectedMode m st) video canvas Hv Hc Hfc Hctx Hw Hh).
  split; reflexivity.
Qed.

Lemma still_uses_preview_filter_witness :
  videoFilter (render (fst (step exact playing (PressMode Sepia))))
  = "sepia(0.8) contrast(1.1) brightness(1.05)".
Proof.
  exact (proj1 (still_uses_preview_filter exact playing Sepia sampleEnv
           (mkVideo (Some 0%nat) 1280 720) (mkCanvas 300 150)
           ltac:(vm_compute; reflexivity) ltac:(vm_compute; reflexivity)
           ltac:(vm_compute; reflexivity) ltac:(vm_compute; reflexivity)
           ltac:(vm_compute; reflexivity)
           ltac:(discriminate) ltac:(discriminate))).
Defined.

(** ** More on the grain *)

Lemma Qle_bool_false (x y : Q) : Qle_bool x y = false -> (y < x)%Q.
Proof.
  intros H. apply Qnot_le_lt. intros L. apply Qle_bool_iff in L. congruence.
Qed.

Lemma ToUint8Clamp_int (z : Z) :
  ToUint8Clamp (inject_Z z) = Z.max 0 (Z.min 255 z).
Proof.
  unfold ToUint8Clamp.
  destruct (Qle_bool (inject_Z z) 0) eqn:E1.
  - apply Qle_bool_iff in E1. change 0%Q with (inject_Z 0) in E1.
    rewrite <- Zle_Qle in E1. lia.
  - apply Qle_bool_false in E1. change 0%Q with (inject_Z 0) in E1.
    rewrite <- Zlt_Qlt in E1.
    destruct (Qle_bool 255 (inject_Z z)) eqn:E2.
    + apply Qle_bool_iff in E2. change 255%Q with (inject_Z 255) in E2.
      rewrite <- Zle_Qle in E2. lia.
    + apply Qle_bool_false in E2. change 255%Q with (inject_Z 255) in E2.
      rewrite <- Zlt_Qlt in E2. rewrite Qfloor_Z.
      destruct (Qcompare_spec (inject_Z z + (1 # 2)) (inject_Z z))
        as [H | H | H]; [lra | lra | lia].
Qed.

Lemma ToUint8Clamp_mono (x y : Q) :
  (x <= y)%Q -> ToUint8Clamp x <= ToUint8Clamp y.
Proof.
  intros Hxy. pose proof (ToUint8Clamp_range x) as Rx.
  pose proof (ToUint8Clamp_range y) as Ry. revert Rx Ry.
  unfold ToUint8Clamp.
  destruct (Qle_bool x 0) eqn:Ex0; [intros; lia|].
  apply Qle_bool_false in Ex0.
  destruct (Qle_bool y 0) eqn:Ey0; [apply Qle_bool_iff in Ey0; lra|].
  destruct (Qle_bool 255 y) eqn:Ey1; [intros; lia|].
  apply Qle_bool_false in Ey1.
  destruct (Qle_bool 255 x) eqn:Ex1; [apply Qle_bool_iff in Ex1; lra|].
  pose proof (Qfloor_resp_le x y Hxy) as Hf.
  pose proof (Qfloor_le x) as Lx. pose proof (Qlt_floor x) as Ux.
  pose proof (Qfloor_le y) as Ly. pose proof (Qlt_floor y) as Uy.
  intros _ _.
  destruct (Z.eq_dec (Qfloor x) (Qfloor y)) as [Heq | Hne].
  - rewrite <- Heq in *.
    destruct (Qcompare_spec (inject_Z (Qfloor x) + (1 # 2)) x) as [Hx|Hx|Hx];
      destruct (Qcompare_spec (inject_Z (Qfloor x) + (1 # 2)) y)
        as [Hy|Hy|Hy];
      try destruct (Z.even (Qfloor x)); try lia; lra.
  - assert (Qfloor x + 1 <= Qfloor y) by lia.
    destruct (inject_Z (Qfloor x) + (1 # 2) ?= x)%Q;
      destruct (inject_Z (Qfloor y) + (1 # 2) ?= y)%Q;
      try destruct (Z.even (Qfloor x)); try destruct (Z.even (Qfloor y));
      lia.
Qed.

Lemma addNoise_mono (fl : Q -> Q) (noise : Q) (d1 d2 : Z) :
  Rounding fl -> d1 <= d2 -> addNoise fl noise d1 <= addNoise fl noise d2.
Proof.
  intros HR H. unfold addNoise. apply ToUint8Clamp_mono, (fl_mono fl HR).
  rewrite Zle_Qle in H. lra.
Qed.

Lemma addNoise_near (fl : Q -> Q) (noise : Q) (d : Z) :
  Rounding fl -> exactOnBytes fl ->
  0 <= d <= 255 -> (- (10) <= noise)%Q -> (noise <= 10)%Q ->
  d - 10 <= addNoise fl noise d <= d + 10.
Proof.
  intros HR HE Hd Hlo Hhi. unfold addNoise.
  assert (Elo : (inject_Z (d - 10) == inject_Z d - 10)%Q).
  { unfold Z.sub. rewrite inject_Z_plus. reflexivity. }
  assert (Ehi : (inject_Z (d + 10) == inject_Z d + 10)%Q).
  { rewrite inject_Z_plus. reflexivity. }
  assert (L : ToUint8Clamp (inject_Z (d - 10))
              <= ToUint8Clamp (fl (inject_Z d + noise)%Q)).
  { apply ToUint8Clamp_mono.
    apply Qle_trans with (fl (inject_Z (d - 10)));
      [rewrite (HE (d - 10)) by lia; apply Qle_refl|].
    apply (fl_mono fl HR). lra. }
  assert (U : ToUint8Clamp (fl (inject_Z d + noise)%Q)
              <= ToUint8Clamp (inject_Z (d + 10))).
  { apply ToUint8Clamp_mono.
    apply Qle_trans with (fl (inject_Z (d + 10)));
      [|rewrite (HE (d + 10)) by lia; apply Qle_refl].
    apply (fl_mono fl HR). lra. }
  rewrite !ToUint8Clamp_int in *. lia.
Qed.

(** Entry [i] after the loop that started with [k] samples drawn: the
    alpha entries as they were, the others with the noise of their pixel. *)
Lemma addGrain_lookup_fuel (fl : Q -> Q) (rand : nat -> Q) (n : nat) :
  forall (data : list Z) (k i : nat) (v : Z),
    (length data <= n)%nat ->
    data !! i = Some v ->
    addGrain fl rand k data !! i =
    Some (if (i mod 4 =? 3)%nat then v
          else addNoise fl (noiseOf fl (rand (k + i / 4)%nat)) v).
Proof.
  induction n as [|n IH]; intros data k i v Hn Hi.
  - destruct data; [discriminate | cbn in Hn; lia].
  - destruct data as [|r [|g [|b [|a rest]]]];
      destruct i as [|[|[|[|i]]]]; cbn in Hi; try discriminate;
      try (injection Hi as <-; cbn [addGrain]; cbn;
           rewrite ?Nat.add_0_r; reflexivity).
    cbn [addGrain]. cbn [lookup list_lookup].
    change (addGrain fl rand (S k) rest !! i =
            Some (if (S (S (S (S i))) mod 4 =? 3)%nat then v
                  else addNoise fl
                         (noiseOf fl (rand (k + S (S (S (S i))) / 4)%nat)) v)).
    replace (S (S (S (S i)))) with (i + 1 * 4)%nat by lia.
    rewrite Nat.Div0.mod_add, Nat.div_add by lia.
    replace (k + (i / 4 + 1))%nat with (S k + i / 4)%nat by lia.
    apply IH; [cbn in Hn; lia | exact Hi].
Qed.

Lemma addGrain_lookup (fl : Q -> Q) (rand : nat -> Q) (data : list Z)
    (i : nat) (v : Z) :
  data !! i = Some v ->
  addGrain fl rand 0 data !! i =
  Some (if (i mod 4 =? 3)%nat then v
        else addNoise fl (noiseOf fl (rand (i / 4)%nat)) v).
Proof.
  intros H.
  apply (addGrain_lookup_fuel fl rand (length data) data 0 i v); auto.
Qed.

Lemma exact_on_bytes : exactOnBytes exact.
Proof. intros z _. unfold exact. reflexivity. Defined.

(** X15. The size of the grain.  With every sample in [0, 1), the loop
    moves each entry of the image that is a byte by at most 10 and keeps
    it a byte; the alpha entries do not move. *)
Theorem grain_moves_at_most_10 (fl : Q -> Q) (env : CaptureEnv)
    (data : list Z) (i : nat) (v : Z) :
  Rounding fl ->
  exactOnBytes fl ->
  (forall k : nat, (0 <= random env k)%Q /\ (random env k < 1)%Q) ->
  data !! i = Some v ->
  0 <= v <= 255 ->
  exists v' : Z,
    addGrain fl (random env) 0 data !! i = Some v' /\
    v - 10 <= v' <= v + 10 /\
    0 <= v' <= 255 /\
    ((i mod 4 = 3)%nat -> v' = v).
Proof.
  intros HR HE Hrand Hi Hv.
  rewrite (addGrain_lookup fl (random env) data i v Hi).
  destruct (i mod 4 =? 3)%nat eqn:E.
  - exists v. repeat split; try lia.
  - eexists. split; [reflexivity|].
    destruct (noiseOf_range fl HR (random env (i / 4)%nat))
      as [Hlo Hhi]; [apply Hrand.. |].
    split; [apply addNoise_near; assumption|].
    split; [apply ToUint8Clamp_range|].
    intros H. apply Nat.eqb_neq in E. contradiction.
Qed.

Lemma grain_moves_at_most_10_witness :
  exists v' : Z,
    addGrain exact (random sampleEnv) 0 [250; 100; 0; 255] !! 1%nat
    = Some v' /\
    100 - 10 <= v' <= 100 + 10 /\
    0 <= v' <= 255 /\
    ((1 mod 4 = 3)%nat -> v' = 100).
Proof.
  apply (grain_moves_at_most_10 exact sampleEnv [250; 100; 0; 255] 1 100
           exact_rounding exact_on_bytes).
  - intros k. split; [discriminate | reflexivity].
  - reflexivity.
  - lia.
Defined.

Lemma pixel_index (p c : nat) :
  (c < 4)%nat ->
  ((4 * p + c) mod 4 = c)%nat /\ ((4 * p + c) / 4 = p)%nat.
Proof.
  intros Hc. replace (4 * p + c)%nat with (c + p * 4)%nat by lia.
  rewrite Nat.Div0.mod_add, Nat.div_add by lia.
  rewrite Nat.mod_small, Nat.div_small by exact Hc. lia.
Qed.

(** X16. The grain keeps the order of the colours of a pixel.  The three
    colour entries of a pixel get the same noise, so if one is at most
    another before the loop it is at most the other after it. *)
Theorem grain_keeps_colour_order (fl : Q -> Q) (rand : nat -> Q)
    (data : list Z) (p c1 c2 : nat) (v1 v2 : Z) :
  Rounding fl ->
  (c1 < 3)%nat -> (c2 < 3)%nat ->
  data !! (4 * p + c1)%nat = Some v1 ->
  data !! (4 * p + c2)%nat = Some v2 ->
  v1 <= v2 ->
  exists v1' v2' : Z,
    addGrain fl rand 0 data !! (4 * p + c1)%nat = Some v1' /\
    addGrain fl rand 0 data !! (4 * p + c2)%nat = Some v2' /\
    v1' <= v2'.
Proof.
  intros HR Hc1 Hc2 H1 H2 Hv.
  rewrite (addGrain_lookup fl rand data _ v1 H1).
  rewrite (addGrain_lookup fl rand data _ v2 H2).
  destruct (pixel_index p c1) as [M1 D1]; [lia|].
  destruct (pixel_index p c2) as [M2 D2]; [lia|].
  rewrite M1, M2, D1, D2.
  assert (E1 : (c1 =? 3)%nat = false) by (apply Nat.eqb_neq; lia).
  assert (E2 : (c2 =? 3)%nat = false) by (apply Nat.eqb_neq; lia).
  rewrite E1, E2. do 2 eexists. split; [reflexivity|].
  split; [reflexivity|]. apply addNoise_mono; assumption.
Qed.

Lemma grain_keeps_colour_order_witness :
  exists v1' v2' : Z,
    addGrain exact (random sampleEnv) 0 [250; 100; 0; 255]
      !! (4 * 0 + 2)%nat = Some v1' /\
    addGrain exact (random sampleEnv) 0 [250; 100; 0; 255]
      !! (4 * 0 + 0)%nat = Some v2' /\
    v1' <= v2'.
Proof.
  apply (grain_keeps_colour_order exact (random sampleEnv)
           [250; 100; 0; 255] 0 2 0 0 250 exact_rounding);
    try lia; reflexivity.
Defined.

(** X17. One sample for each pixel.  The loop reads the samples of
    [Math.random()] only at the positions of the pixels of the image: two
    sources that agree there give the same image. *)
Theorem grain_one_sample_per_pixel (fl : Q -> Q) (rand rand' : nat -> Q)
    (data : list Z) :
  (forall j : nat, (4 * j < length data)%nat -> rand j = rand' j) ->
  addGrain fl rand 0 data = addGrain fl rand' 0 data.
Proof.
  intros H. apply list_eq. intros i.
  destruct (data !! i) as [v|] eqn:E.
  - rewrite (addGrain_lookup fl rand data i v E),
      (addGrain_lookup fl rand' data i v E).
    rewrite (H (i / 4)%nat); [reflexivity|].
    apply lookup_lt_Some in E.
    pose proof (Nat.Div0.mul_div_le i 4). lia.
  - apply lookup_ge_None in E.
    rewrite !(proj2 (lookup_ge_None _ _)); [reflexivity | |];
      rewrite addGrain_length; exact E.
Qed.

Lemma grain_one_sample_per_pixel_witness :
  addGrain exact (fun _ => (19 # 20)%Q) 0 [250; 100; 0; 255]
  = addGrain exact (fun j => if (j <? 1)%nat then (19 # 20)%Q else 0%Q) 0
      [250; 100; 0; 255].
Proof.
  apply grain_one_sample_per_pixel. intros j Hj. cbn in Hj.
  destruct j; [reflexivity | lia].
Defined.

(** ** Starts and requests *)

Lemma requests_app (e1 e2 : list Event) :
  requests (e1 ++ e2) = requests e1 ++ requests e2.
Proof.
  induction e1 as [|e e1 IH]; [reflexivity|].
  destruct e; cbn; rewrite IH; reflexivity.
Qed.

Lemma requests_trackStops (h : nat) (l : list nat) :
  requests (map (EvTrackStop h) l) = [].
Proof. induction l; cbn; auto. Qed.

Lemma noRequests_andThen (c1 c2 : Cmd) :
  noRequests c1 -> noRequests c2 -> noRequests (c1 >> c2).
Proof.
  intros H1 H2 st. rewrite andThen_eq. cbn [fst snd].
  destruct (H1 st) as [A1 B1]. destruct (H2 (fst (c1 st))) as [A2 B2].
  rewrite requests_app, A1, A2, B2, B1. auto.
Qed.

Lemma noRequests_catchError (err : Thrown) (inv : nat) :
  noRequests (fun st => catchError err (settle inv st)).
Proof.
  intros st. destruct (catchError_classified err (settle inv st))
    as (msg & E & _).
  rewrite E. cbn. rewrite length_insert. auto.
Qed.

Lemma noRequests_readinessRejected (inv : nat) (err : Thrown) :
  noRequests (readinessRejected inv err).
Proof.
  intros st. unfold readinessRejected.
  destruct (invocations st !! inv) as [[| | |]|]; auto;
    apply (noRequests_catchError err inv).
Qed.

Lemma noRequests_rejectEach (err : Thrown) (invs : list nat) :
  noRequests (rejectEach err invs).
Proof.
  induction invs as [|inv invs IH]; [intros st; cbn; auto|].
  apply noRequests_andThen; [apply noRequests_readinessRejected | exact IH].
Qed.

Lemma noRequests_stopCamera : noRequests stopCamera.
Proof.
  intros st. destruct (stopCamera_core st) as (_ & Ei & _ & _).
  rewrite Ei. split; [|reflexivity].
  rewrite stopCamera_eq. cbn [snd].
  destruct (streamRef st) as [h|]; [|reflexivity].
  destruct (streams st !! h); [apply requests_trackStops | reflexivity].
Qed.

(** One step: a start issues one request, for a new invocation; nothing
    else issues any. *)
Lemma step_requests (fl : Q -> Q) (st : State) (i : Input) :
  (i = PressStart /\
   requests (snd (step fl st i)) = [length (invocations st)] /\
   length (invocations (fst (step fl st i))) = S (length (invocations st))) \/
  (i <> PressStart /\
   requests (snd (step fl st i)) = [] /\
   length (invocations (fst (step fl st i))) = length (invocations st)).
Proof.
  assert (K : forall c : Cmd, noRequests c ->
            requests (snd (c st)) = [] /\
            length (invocations (fst (c st))) = length (invocations st)).
  { intros c Hc. apply Hc. }
  destruct i; cbn [step];
    try (right; split; [discriminate|]).
  - left. split; [reflexivity|]. rewrite startCamera_eq. cbn [fst snd].
    destruct (noRequests_stopCamera
                (set_cameraState (mkCameraState Requesting None) st))
      as [A B].
    cbn [requests]. rewrite requests_app, A. cbn [requests app invocations
      set_invocations]. rewrite length_app, B. cbn. split; [reflexivity|lia].
  - apply K, noRequests_stopCamera.
  - apply K. intros s. unfold streamGranted.
    destruct (invocations s !! inv) as [[| | |]|]; auto.
    cbn. destruct (videoRef s); cbn; rewrite length_insert; auto.
  - apply K. intros s. unfold streamRefused.
    destruct (invocations s !! inv) as [[| | |]|]; auto.
    apply (noRequests_catchError err inv).
  - apply K. intros s. unfold loadedMetadata.
    destruct (videoRef s); cbn; rewrite length_fmap; auto.
  - apply K. intros s. apply noRequests_rejectEach.
  - apply K. intros s. unfold playStarted.
    destruct (invocations s !! inv) as [[| | |]|]; auto.
    cbn. rewrite length_insert. auto.
  - apply K. intros s. unfold playRefused.
    destruct (invocations s !! inv) as [[| | |]|]; auto.
    apply (noRequests_catchError err inv).
  - apply K. intros s. unfold timerFires.
    destruct (timers s !! k) as [[a d]|]; auto.
    destruct a as [| |inv]; auto.
    apply (noRequests_readinessRejected inv _
             (set_timers (delete k (timers s)) s)).
  - apply K. intros s. unfold pressShutter.
    destruct (shutterDisabled s); auto. unfold capturePhoto.
    destruct (videoRef s) as [video|]; auto.
    destruct (canvasRef s); auto.
    destruct (filmCount s <=? 0); auto.
    destruct (getContext env); cbn [negb]; auto.
    destruct ((videoWidth video =? 0)%N || (videoHeight video =? 0)%N);
      auto.
  - apply K. intros s. unfold pressGallery, downloadPhoto.
    destruct (capturedImage s) as [[|c x]|]; auto.
  - apply K. intros s. auto.
Qed.

Lemma run_requests (fl : Q -> Q) (inputs : list Input) :
  forall st : State,
    requests (snd (run fl st inputs)) =
      seq (length (invocations st)) (starts inputs) /\
    length (invocations (fst (run fl st inputs))) =
      (length (invocations st) + starts inputs)%nat.
Proof.
  induction inputs as [|i rest IH]; intros st.
  - cbn. split; [reflexivity | lia].
  - rewrite run_cons. cbn [fst snd]. rewrite requests_app.
    destruct (IH (fst (step fl st i))) as [A B]. rewrite A, B.
    destruct (step_requests fl st i) as [(-> & R & L) | (Hne & R & L)];
      rewrite R, L.
    + cbn [starts seq app]. split; [reflexivity | lia].
    + assert (E : starts (i :: rest) = starts rest)
        by (destruct i; try reflexivity; congruence).
      rewrite E. split; reflexivity.
Qed.

(** X22. One request for each start.  In any run from the mount,
    [getUserMedia] is called once for every press of a start control and
    never otherwise: a failure is not retried, and the requests are those
    of invocations 0, 1, 2, ... in order. *)
Theorem one_request_per_start (fl : Q -> Q) (inputs : list Input) :
  requests (snd (run fl initial inputs)) = seq 0 (starts inputs) /\
  length (invocations (fst (run fl initial inputs))) = starts inputs.
Proof. apply (run_requests fl inputs initial). Qed.

Lemma step_not_idle (fl : Q -> Q) (st : State) (i : Input) :
  status (cameraState st) <> Idle ->
  status (cameraState (fst (step fl st i))) <> Idle.
Proof.
  intros H.
  assert (Hcatch : forall err s,
            status (cameraState (fst (catchError err s))) <> Idle).
  { intros err s. destruct (catchError_classified err s) as (msg & E & _).
    rewrite E. discriminate. }
  assert (Hrej : forall inv err s,
            status (cameraState s) <> Idle ->
            status (cameraState (fst (readinessRejected inv err s))) <> Idle).
  { intros inv err s Hs. unfold readinessRejected.
    destruct (invocations s !! inv) as [[| | |]|]; auto. }
  destruct i; cbn [step].
  - destruct (startCamera_after st) as (_ & E & _). rewrite E. discriminate.
  - destruct (stopCamera_status st) as [E _]. rewrite E. exact H.
  - unfold streamGranted.
    destruct (invocations st !! inv) as [[| | |]|]; auto.
    cbn. destruct (videoRef st); exact H.
  - unfold streamRefused.
    destruct (invocations st !! inv) as [[| | |]|]; auto.
  - unfold loadedMetadata. destruct (videoRef st); exact H.
  - unfold videoFailed.
    generalize (List.filter (listening st) (seq 0 (length (invocations st)))).
    intros invs. revert st H.
    induction invs as [|inv invs IH]; intros st H; [exact H|].
    cbn [rejectEach]. rewrite andThen_eq. cbn [fst]. apply IH, Hrej, H.
  - unfold playStarted.
    destruct (invocations st !! inv) as [[| | |]|]; auto; discriminate.
  - unfold playRefused.
    destruct (invocations st !! inv) as [[| | |]|]; auto.
  - unfold timerFires. destruct (timers st !! k) as [[a d]|]; auto.
    destruct a as [| |inv]; auto. apply Hrej. exact H.
  - unfold pressShutter. destruct (shutterDisabled st); auto.
    rewrite cameraState_capturePhoto. exact H.
  - unfold pressGallery, downloadPhoto.
    destruct (capturedImage st) as [[|c s]|]; exact H.
  - exact H.
Qed.

Lemma classic_start (i : Input) : i = PressStart \/ i <> PressStart.
Proof. destruct i; auto; right; discriminate. Qed.

Lemma noStart_dec (inputs : list Input) : noStart inputs \/ ~ noStart inputs.
Proof.
  induction inputs as [|i rest [Y | N]].
  - left. constructor.
  - destruct (classic_start i) as [-> | Hi].
    + right. intros H. inversion H; congruence.
    + left. constructor; assumption.
  - right. intros H. inversion H; auto.
Qed.

Lemma quiescent_initial : quiescent initial.
Proof. intros i s H. discriminate. Qed.

(** X23. Idle only before the first start.  After a run from the mount
    the status is [Idle], and the start panel is shown, exactly when no
    start control was pressed: nothing but a start leaves [Idle] and
    nothing comes back to it. *)
Theorem idle_until_first_start (fl : Q -> Q) (inputs : list Input) :
  let st := fst (run fl initial inputs) in
  (status (cameraState st) = Idle <-> noStart inputs) /\
  (startPanel (render st) = true <-> noStart inputs).
Proof.
  cbv zeta.
  assert (G : status (cameraState (fst (run fl initial inputs))) = Idle
              <-> noStart inputs).
  { split.
    - assert (K : forall st,
                ~ noStart inputs ->
                status (cameraState (fst (run fl st inputs))) <> Idle).
      { induction inputs as [|i rest IH]; intros st Hn.
        - exfalso. apply Hn. constructor.
        - rewrite run_cons. cbn [fst].
          destruct (classic_start i) as [-> | Hi].
          + assert (N : status (cameraState (fst (step fl st PressStart)))
                        <> Idle).
            { cbn [step]. destruct (startCamera_after st) as (_ & E & _).
              rewrite E. discriminate. }
            revert N. generalize (fst (step fl st PressStart)).
            clear. induction rest as [|j rest IH]; intros s N; [exact N|].
            rewrite run_cons. cbn [fst]. apply IH, step_not_idle, N.
          + apply IH. intros Hr. apply Hn. constructor; assumption. }
      intros Hidle. destruct (noStart_dec inputs) as [Y | N]; [exact Y|].
      exfalso. exact (K initial N Hidle).
    - intros Hn.
      destruct (quiescent_run fl inputs initial quiescent_initial Hn)
        as [E _].
      rewrite E. reflexivity. }
  split; [exact G|]. rewrite <- G. unfold render. cbn [startPanel].
  destruct (status (cameraState (fst (run fl initial inputs))));
    cbn; split; congruence.
Qed.

(** ** The readiness timer *)

(** X24. The readiness timer is never cleared.  When the timer armed by
    invocation [inv] expires it leaves the timer list, and what follows
    depends on the invocation alone: while the invocation still waits,
    for the metadata or for [play()] after the metadata has come, its
    start fails with the time-out message and the stream stays in
    [streamRef]; once the invocation has settled the expiry changes
    nothing else and writes nothing. *)
Theorem readiness_timer_outlives_start (fl : Q -> Q) (st : State)
    (k inv : nat) (t : Timer) :
  timers st !! k = Some t ->
  action t = ReadinessTimeout inv ->
  let r := step fl st (TimerFires k) in
  timers (fst r) = delete k (timers st) /\
  match invocations st !! inv with
  | Some AwaitingMetadata | Some AwaitingPlay =>
      cameraState (fst r) =
        mkCameraState Error (Some (Other "Camera initialization timed out")) /\
      invocations (fst r) = <[inv := Settled]> (invocations st) /\
      streamRef (fst r) = streamRef st /\
      streams (fst r) = streams st
  | _ => fst r = set_timers (delete k (timers st)) st /\ snd r = []
  end.
Proof.
  intros Ht Ha. cbv zeta. cbn [step]. unfold timerFires. rewrite Ht, Ha.
  cbn [runTimer]. unfold readinessRejected. cbn [invocations set_timers].
  destruct (invocations st !! inv) as [[| | |]|];
    try (split; [reflexivity | split; reflexivity]);
    (split; [reflexivity | repeat (split; [reflexivity|]); reflexivity]).
Qed.

Lemma readiness_timer_outlives_start_witness :
  timers playing !! 0%nat = Some (mkTimer (ReadinessTimeout 0) 5000) /\
  fst (step exact playing (TimerFires 0)) = set_timers [] playing /\
  snd (step exact playing (TimerFires 0)) = [].
Proof.
  split; [vm_compute; reflexivity|].
  exact (proj2 (readiness_timer_outlives_start exact playing 0 0
                  (mkTimer (ReadinessTimeout 0) 5000)
                  ltac:(vm_compute; reflexivity) eq_refl)).
Defined.
